(** * FlashString: counted objects stored in flash memory

    A shallow embedding of the FlashString library: the legacy
    [struct FlashString] (include/FlashString.h), the untyped handle
    [FSTR::ObjectBase] (ObjectBase.cpp), the typed wrapper
    [FSTR::Object<ObjectType, ElementType>] (include/FlashString/Object.hpp)
    and the element read dispatch [FSTR::readValue]
    (include/FlashString/Utility.hpp).

    The machine is the 32-bit little-endian target the library is written
    for (ESP8266; the Host emulator is built as a 32-bit program too):
    pointers, [size_t], [unsigned] and [uint32_t] are all 32 bits wide and are
    represented by [Z] with the wrap-around written out. *)

From Stdlib Require Import ZArith Lia.
From coqutil Require Import Byte Word.LittleEndianList.
From stdpp Require Import base option list gmap.
Local Open Scope Z_scope.

(** ** Machine integers *)

(** Arithmetic on [uint32_t], [size_t] and [unsigned] is modulo 2^32. *)
Definition wrap32 (z : Z) : Z := z mod 2 ^ 32.

(** Conversion of an [unsigned] to [int] (two's complement). *)
Definition to_int (z : Z) : Z := if z <? 2 ^ 31 then z else z - 2 ^ 32.

(** [std::min(a, b)] is [(b < a) ? b : a]. *)
Definition std_min (a b : Z) : Z := if b <? a then b else a.

(** ** Outcomes of a call

    Nothing in the library throws.  A call can still end without a value:
    [assert] aborts the program, an access outside mapped memory faults, and
    a template call without a viable overload does not build. *)

Inductive error : Set :=
| AssertFailed
| Fault
| NoOverload.

Inductive result (A : Type) : Type :=
| Ok (a : A)
| Err (e : error).
Arguments Ok {A} a.
Arguments Err {A} e.

#[export] Instance result_ret : MRet result := fun A a => Ok a.
#[export] Instance result_bind : MBind result := fun A B k c =>
  match c with
  | Ok a => k a
  | Err e => Err e
  end.

Definition access {A : Type} (o : option A) : result A :=
  match o with
  | Some a => Ok a
  | None => Err Fault
  end.

(** ** Memory *)

(** A byte-addressed partial memory: unmapped addresses have no entry. *)
Abbreviation Memory := (gmap Z byte).

Fixpoint load_bytes (m : Memory) (a : Z) (n : nat) : option (list byte) :=
  match n with
  | O => Some []
  | S k =>
      b ← m !! a;
      bs ← load_bytes m (a + 1) k;
      Some (b :: bs)
  end.

Fixpoint store_bytes (m : Memory) (a : Z) (bs : list byte) : Memory :=
  match bs with
  | [] => m
  | b :: bs' => <[a := b]> (store_bytes m (a + 1) bs')
  end.

(** Little-endian load of an [n]-byte unsigned integer. *)
Definition load_uint (m : Memory) (a : Z) (n : nat) : result Z :=
  access (le_combine <$> load_bytes m a n).

Definition store_uint (m : Memory) (a : Z) (n : nat) (v : Z) : Memory :=
  store_bytes m a (le_split n v).

(** The machine: the CPU address space ([mem], RAM and the cache-mapped
    flash) and the flash device addressed by device offset ([flash]). *)
Record Machine : Type := {
  mem : Memory;
  flash : Memory
}.

(** What the build and the framework fix. *)
Record Platform : Type := {
  ARCH_HOST : bool;               (* built with ARCH_HOST defined *)
  NDEBUG : bool;                  (* release build: assert() compiled out *)
  isFlashPtr : Z -> bool;         (* framework: does the address lie in flash *)
  empty_ : Z;                     (* address of ObjectBase::empty_ *)
  flashmem_get_address : Z -> Z   (* framework: mapped address to device address *)
}.

(** [assert(c)] *)
Definition assert (cfg : Platform) (c : bool) : result unit :=
  if NDEBUG cfg || c then Ok tt else Err AssertFailed.

(** ** Framework primitives *)

(** A caller's buffer is the list of the bytes it holds; writing [src] at its
    start needs room for all of [src]. *)
Definition memcpy (buffer src : list byte) : result (list byte) :=
  if (length src <=? length buffer)%nat
  then Ok (src ++ drop (length src) buffer)
  else Err Fault.

(** [memcpy_P(buffer, src, count)]: copy through the cache. *)
Definition memcpy_P (s : Machine) (buffer : list byte) (src count : Z)
  : result (list byte) :=
  bytes ← access (load_bytes (mem s) src (Z.to_nat count));
  memcpy buffer bytes.

(** [flashmem_read(buffer, addr, count)]: read the device, bypassing the
    cache; returns the number of bytes read. *)
Definition flashmem_read (s : Machine) (buffer : list byte) (addr count : Z)
  : result (list byte * Z) :=
  bytes ← access (load_bytes (flash s) addr (Z.to_nat count));
  buffer' ← memcpy buffer bytes;
  Ok (buffer', count).

(** [pgm_read_byte(ptr)] and [pgm_read_word(ptr)]: the framework's reads
    of one byte and of a 16-bit word from flash. *)
Definition pgm_read_byte (s : Machine) (ptr : Z) : result Z :=
  load_uint (mem s) ptr 1.

Definition pgm_read_word (s : Machine) (ptr : Z) : result Z :=
  load_uint (mem s) ptr 2.

(** Modelled from the spec: IS_ALIGNED is a macro of the framework headers,
    which are not among the sources; the spec calls it the natural
    aligned-access width, the word of four bytes. *)
Definition IS_ALIGNED (x : Z) : bool := Z.land x 3 =? 0.

(** Modelled from the spec: ALIGNUP is a macro of the framework headers,
    which are not among the sources; it rounds up to a multiple of the
    four-byte word, in the type of its argument. *)
Definition ALIGNUP (n : Z) : Z :=
  wrap32 (Z.land (wrap32 (n + 3)) (wrap32 (Z.lnot 3))).

(** ** include/FlashString.h: the legacy [struct FlashString]

    The struct is the single field [uint32_t flashLength]; the characters
    follow it in flash.  A FlashString is referred to by its address. *)
Module FlashString.

Definition flashLength (s : Machine) (this : Z) : result Z :=
  load_uint (mem s) this 4.

Definition length (s : Machine) (this : Z) : result Z :=
  flashLength s this.

Definition size (s : Machine) (this : Z) : result Z :=
  n ← flashLength s this;
  Ok (ALIGNUP (wrap32 (n + 1))).

(** [reinterpret_cast<flash_string_t>(&flashLength + 1)] *)
Definition data (this : Z) : Z := this + 4.

Definition read (s : Machine) (this offset : Z) (buffer : list byte)
    (bytesToRead : Z) : result (list byte * Z) :=
  n ← flashLength s this;
  if n <=? offset then Ok (buffer, 0)
  else
    let count := std_min (wrap32 (n - offset)) bytesToRead in
    buffer' ← memcpy_P s buffer (data this + offset) count;
    Ok (buffer', count).

(** [name[index] = value] on an array that is [name] *)
Definition array_store (name : list byte) (index : Z) (value : byte)
  : result (list byte) :=
  if (0 <=? index) && (index <? Z.of_nat (List.length name))
  then Ok (<[Z.to_nat index := value]> name)
  else Err Fault.

(** The macro [LOAD_FSTR(name, fstr)]: a stack array of [size()] bytes,
    whose indeterminate initial content is [junk], is filled with the
    [length()] characters and terminated at index [length()].
    [memcpy_aligned] is the framework's copy from flash for word-aligned
    operands; it is taken to copy the [length()] bytes asked for. *)
Definition LOAD_FSTR (s : Machine) (junk : nat -> byte) (fstr : Z)
  : result (list byte) :=
  sz ← size s fstr;
  let name := junk <$> seq 0 (Z.to_nat sz) in
  n ← length s fstr;
  name ← memcpy_P s name (data fstr) n;
  n ← length s fstr;
  array_store name n Byte.x00.

End FlashString.

(** ** ObjectBase.cpp: the untyped handle [FSTR::ObjectBase]

  The class is the single field [uint32_t flashLength_].  A handle is
  referred to by its address [this]; what it stores is read from memory. *)
Module ObjectBase.

(** Modelled from the spec: the value of [copyBit] is set in
    ObjectBase.hpp, which is not among the sources (ObjectBase.cpp only
    redeclares the [uint32_t] constant); the spec describes a one-bit tag
    that marks a copy and is masked out to leave an address: the top bit
    of the field. *)
Definition copyBit : Z := 0x80000000.

Definition flashLength_ (s : Machine) (this : Z) : result Z :=
  load_uint (mem s) this 4.

(** Modelled from the spec: [isCopy] is defined in ObjectBase.hpp; it is
    true iff this instance carries the redirect tag. *)
Definition isCopy (s : Machine) (this : Z) : result bool :=
  v ← flashLength_ s this;
  Ok (negb (Z.land v copyBit =? 0)).

(** Modelled from the spec: [getObjectLength] is defined in
    ObjectBase.hpp; the byte count of a resolved handle is its length
    field. *)
Definition getObjectLength (s : Machine) (ptr : Z) : result Z :=
  flashLength_ s ptr.

(** Modelled from the spec: [getObjectData] is defined in ObjectBase.hpp;
    the data pointer is the address of the length field plus the size of
    that field. *)
Definition getObjectData (ptr : Z) : Z := ptr + 4.

Definition getObjectPtr (cfg : Platform) (s : Machine) (this : Z)
  : result Z :=
  c ← isCopy s this;
  if (c : bool) then
    v ← flashLength_ s this;
    Ok (Z.land v (wrap32 (Z.lnot copyBit)))
  else
    v ← flashLength_ s this;
    if v =? 0 then Ok (empty_ cfg)
    else if ARCH_HOST cfg then Ok this
    else
      assert cfg (isFlashPtr cfg this);;
      if isFlashPtr cfg this then Ok this else Ok (empty_ cfg).

Definition readFlash (cfg : Platform) (s : Machine) (this offset : Z)
    (buffer : list byte) (count : Z) : result (list byte * Z) :=
  ptr ← getObjectPtr cfg s this;
  len ← getObjectLength s ptr;
  if len <=? offset then Ok (buffer, 0)
  else
    let count := std_min (wrap32 (len - offset)) count in
    let addr := flashmem_get_address cfg (getObjectData ptr + offset) in
    flashmem_read s buffer addr count.

(** Modelled from the spec: [length] is defined in ObjectBase.hpp; it
    returns the resolved handle's byte count. *)
Definition length (cfg : Platform) (s : Machine) (this : Z) : result Z :=
  ptr ← getObjectPtr cfg s this;
  getObjectLength s ptr.

(** Modelled from the spec: [data] is defined in ObjectBase.hpp; it is
    the address of the first data byte of the resolved handle. *)
Definition data (cfg : Platform) (s : Machine) (this : Z) : result Z :=
  ptr ← getObjectPtr cfg s this;
  Ok (getObjectData ptr).

(** Modelled from the spec: [read] is defined in ObjectBase.hpp; it
    returns 0 when the offset is at or past [length()], clamps the count to
    what is left and copies through the cached backend. *)
Definition read (cfg : Platform) (s : Machine) (this offset : Z)
    (buffer : list byte) (count : Z) : result (list byte * Z) :=
  len ← length cfg s this;
  if len <=? offset then Ok (buffer, 0)
  else
    let count := std_min (wrap32 (len - offset)) count in
    d ← data cfg s this;
    buffer' ← memcpy_P s buffer (d + offset) count;
    Ok (buffer', count).

(** Modelled from the spec: [copy] is defined in ObjectBase.hpp; the copy
    sets the tag bit and stores the address of the source handle as
    payload.  It writes the one field of the new handle. *)
Definition copy (s : Machine) (this obj : Z) : Machine :=
  {| mem := store_uint (mem s) this 4 (wrap32 (Z.lor obj copyBit));
     flash := flash s |}.

End ObjectBase.

(** ** include/FlashString/Utility.hpp: the element read dispatch

    [readValue] is three function templates, each enabled by a condition on
    [sizeof(T)]; which one a call uses is settled when the call is compiled.
    An element is modelled by its object representation, read as an unsigned
    little-endian number. *)

Inductive strategy : Set :=
| ByteRead      (* static_cast<T>(pgm_read_byte(ptr)) *)
| WordRead      (* static_cast<T>(pgm_read_word(ptr)) *)
| Dereference.  (* *static_cast<const T*>(ptr) *)

(** The templates in declaration order, each with its [enable_if]
    condition. *)
Definition readValue_templates : list ((Z -> bool) * strategy) :=
  [ (fun sz => sz =? 1, ByteRead);
    (fun sz => sz =? 2, WordRead);
    (fun sz => IS_ALIGNED sz, Dereference) ].

(** The templates left after substitution for an element of size [sz]. *)
Definition viable (sz : Z) : list strategy :=
  snd <$> filter (fun t => Is_true (fst t sz)) readValue_templates.

(** Overload resolution: the call builds iff exactly one template is left. *)
Definition resolve_readValue (sz : Z) : result strategy :=
  match viable sz with
  | [st] => Ok st
  | _ => Err NoOverload
  end.

(** What the bodies of the templates are written against: the framework's
    two reads from flash, the plain dereference of a pointer to [T], and the
    [static_cast<T>] of the integer a framework read returns, which builds for
    an arithmetic [T] only. *)
Record Reads : Type := {
  byte_read : Machine -> Z -> result Z;     (* pgm_read_byte(ptr) *)
  word_read : Machine -> Z -> result Z;     (* pgm_read_word(ptr) *)
  direct : Z -> Machine -> Z -> result Z;   (* *ptr, for a T of the size *)
  convertible : bool;                       (* static_cast<T>(integer) builds *)
  converted : Z -> Z                        (* the T it yields *)
}.

(** The body of the template selected. *)
Definition load_via (via : Reads) (st : strategy) (sz : Z) (s : Machine)
    (ptr : Z) : result Z :=
  match st with
  | ByteRead =>
      if convertible via
      then v ← byte_read via s ptr; Ok (converted via v)
      else Err NoOverload
  | WordRead =>
      if convertible via
      then v ← word_read via s ptr; Ok (converted via v)
      else Err NoOverload
  | Dereference => direct via sz s ptr
  end.

Definition readValue_via (via : Reads) (sz : Z) (s : Machine) (ptr : Z)
  : result Z :=
  st ← resolve_readValue sz;
  load_via via st sz s ptr.

(** The reads on this machine, for elements of an unsigned integer type: the
    cast from the framework's [uint8_t] or [uint16_t] keeps the value. *)
Definition framework : Reads :=
  {| byte_read := pgm_read_byte;
     word_read := pgm_read_word;
     direct := fun sz s ptr => load_uint (mem s) ptr (Z.to_nat sz);
     convertible := true;
     converted := fun v => v |}.

Definition readValue (sz : Z) (s : Machine) (ptr : Z) : result Z :=
  readValue_via framework sz s ptr.

(** Reads that tell which of them was called, by the value they return. *)
Definition probe : Reads :=
  {| byte_read := fun _ _ => Ok 1;
     word_read := fun _ _ => Ok 2;
     direct := fun sz _ _ => Ok (100 + sz);
     convertible := true;
     converted := fun v => v |}.

(** ** include/FlashString/Object.hpp: the typed wrapper

    [Object<ObjectType, ElementType>] derives from [ObjectBase] and adds no
    field: a typed object is referred to by the same address [this]. *)
Module Object.
Section ElementType.

(** [sizeof(ElementType)] and the build. *)
Variable sizeofT : Z.
Variable cfg : Platform.

(** Modelled from the spec: ObjectIterator.hpp is not among the sources; an
    iterator is the pair of the sequence it references and a position. *)
Record Iterator : Set := {
  it_object : Z;
  it_position : Z
}.

(** Modelled from the spec: two iterators compare equal iff they reference
    the same sequence and the same position. *)
Definition Iterator_eq (a b : Iterator) : bool :=
  (it_object a =? it_object b) && (it_position a =? it_position b).

Definition length (s : Machine) (this : Z) : result Z :=
  n ← ObjectBase.length cfg s this;
  Ok (n / sizeofT).

Definition begin (this : Z) : Iterator :=
  {| it_object := this; it_position := 0 |}.

Definition end_ (s : Machine) (this : Z) : result Iterator :=
  n ← length s this;
  Ok {| it_object := this; it_position := n |}.

Definition elementSize : Z := sizeofT.

Definition data (s : Machine) (this : Z) : result Z :=
  ObjectBase.data cfg s this.

(** The member builds only where its call of [readValue] does. *)
Definition valueAt (s : Machine) (this index : Z) : result Z :=
  resolve_readValue sizeofT;;
  n ← length s this;
  if index <? n then
    d ← data s this;
    readValue sizeofT s (d + index * sizeofT)
  else Ok 0.

Definition subscript (s : Machine) (this index : Z) : result Z :=
  valueAt s this index.

(** The loop [for(unsigned i = 0; i < len; ++i)]: [todo] is the number of
    iterations left, [len - i].  [indexOf] is a template over [ValueType];
    [equals] is the [==] of C++ between an [ElementType] and a [ValueType],
    whatever it is for the two types (it need not be reflexive: a NaN is not
    equal to itself). *)
Fixpoint indexOf_loop {ValueType : Type} (equals : Z -> ValueType -> bool)
    (s : Machine) (this : Z) (value : ValueType) (todo : nat) (i : Z)
  : result Z :=
  match todo with
  | O => Ok (-1)
  | S todo' =>
      v ← valueAt s this i;
      if equals v value then Ok (to_int i)
      else indexOf_loop equals s this value todo' (wrap32 (i + 1))
  end.

Definition indexOf {ValueType : Type} (equals : Z -> ValueType -> bool)
    (s : Machine) (this : Z) (value : ValueType) : result Z :=
  len ← length s this;
  indexOf_loop equals s this value (Z.to_nat len) 0.

Definition read (s : Machine) (this index : Z) (buffer : list byte)
    (count : Z) : result (list byte * Z) :=
  let offset := wrap32 (index * sizeofT) in
  let count := wrap32 (count * sizeofT) in
  r ← ObjectBase.read cfg s this offset buffer count;
  Ok (r.1, r.2 / sizeofT).

Definition readFlash (s : Machine) (this index : Z) (buffer : list byte)
    (count : Z) : result (list byte * Z) :=
  let offset := wrap32 (index * sizeofT) in
  let count := wrap32 (count * sizeofT) in
  r ← ObjectBase.readFlash cfg s this offset buffer count;
  Ok (r.1, r.2 / sizeofT).

End ElementType.
End Object.

(** ** A program image

    A release and a debug build for the ESP8266, whose flash is mapped from
    0x40200000, and a Host build; an image with the empty object, the array
    of the five 32-bit numbers 10, 20, 30, 40, 50 and the string "hello". *)

Definition esp8266 (ndebug : bool) : Platform :=
  {| ARCH_HOST := false;
     NDEBUG := ndebug;
     isFlashPtr := fun a => 0x40200000 <=? a;
     empty_ := 0x40201000;
     flashmem_get_address := fun a => wrap32 (a - 0x40200000) |}.

Definition host : Platform :=
  {| ARCH_HOST := true;
     NDEBUG := false;
     isFlashPtr := fun a => 0x40200000 <=? a;
     empty_ := 0x40201000;
     flashmem_get_address := fun a => wrap32 (a - 0x40200000) |}.

Definition numbers : Z := 0x40202000.
Definition hello : Z := 0x40203000.

Definition numbers_data : list byte :=
  le_split 4 10 ++ le_split 4 20 ++ le_split 4 30 ++ le_split 4 40
    ++ le_split 4 50.

Definition hello_data : list byte :=
  [Byte.x68; Byte.x65; Byte.x6c; Byte.x6c; Byte.x6f].

(** The content of the flash device, by device offset. *)
Definition device : Memory :=
  store_bytes
    (store_bytes
       (store_bytes ∅ 0x1000 (le_split 4 0))
       0x2000 (le_split 4 20 ++ numbers_data))
    0x3000 (le_split 4 5 ++ hello_data ++ [Byte.x00; Byte.x00; Byte.x00]).

(** The same content as the CPU sees it. *)
Definition mapped : Memory :=
  store_bytes
    (store_bytes
       (store_bytes ∅ 0x40201000 (le_split 4 0))
       numbers (le_split 4 20 ++ numbers_data))
    hello (le_split 4 5 ++ hello_data ++ [Byte.x00; Byte.x00; Byte.x00]).

Definition image : Machine := {| mem := mapped; flash := device |}.

(** A handle in RAM that holds a bitwise copy of the field of [numbers]
    (made by [memcpy] or a struct assignment, not by the copy constructor),
    and no data. *)
Definition stray : Z := 0x3FFE8000.

Definition image_stray : Machine :=
  {| mem := store_uint mapped stray 4 20; flash := device |}.

(** A handle in RAM made by the copy constructor from [numbers]. *)
Definition duplicate : Z := 0x3FFE8010.

Definition image_duplicate : Machine := ObjectBase.copy image duplicate numbers.

(** ** Objects in memory *)

(** The object at address [p] holds the bytes [B]: its length field is the
    number of bytes and the bytes follow the field. *)
Definition holds (s : Machine) (p : Z) (B : list byte) : Prop :=
  ObjectBase.flashLength_ s p = Ok (Z.of_nat (length B))
  /\ load_bytes (mem s) (p + 4) (length B) = Some B.

(** What a reader finds behind [data()]: [length()] bytes from there. *)
Definition contents (cfg : Platform) (s : Machine) (this : Z)
  : result (list byte) :=
  d ← ObjectBase.data cfg s this;
  n ← ObjectBase.length cfg s this;
  access (load_bytes (mem s) d (Z.to_nat n)).

(** The element stored at index [i] in the data [B], for elements of [sz]
    bytes. *)
Definition element (sz : Z) (B : list byte) (i : Z) : Z :=
  le_combine (take (Z.to_nat sz) (drop (Z.to_nat (i * sz)) B)).

(** The buffer after the [n] bytes of [B] from [offset] on were copied to
    its start. *)
Definition copied (B : list byte) (offset n : Z) (buffer : list byte)
  : list byte :=
  take (Z.to_nat n) (drop (Z.to_nat offset) B) ++ drop (Z.to_nat n) buffer.

(** A FlashString whose length field is 0xFFFFFFFC. *)
Definition huge : Z := 0x40204000.

Definition image_huge : Machine :=
  {| mem := store_uint ∅ huge 4 0xFFFFFFFC; flash := ∅ |}.

(** ** include/FlashString.h: the macros that embed data *)

(** [sizeof(str)] for a string literal with the characters [str]: the
    characters and the terminating NUL, as a [size_t]. *)
Definition sizeof_literal (str : list byte) : Z :=
  wrap32 (Z.of_nat (length str) + 1).

(** [DEFINE_FSTR_DATA(name, str)]: the object representation of
    [const struct { FlashString fstr; char data[ALIGNUP(sizeof(str))]; }]
    initialised with [{{sizeof(str) - 1}, str}]: the length field, then the
    array, which holds the literal with its NUL and zeros in what is left. *)
Definition DEFINE_FSTR_DATA (str : list byte) : list byte :=
  le_split 4 (wrap32 (sizeof_literal str - 1))
    ++ resize (Z.to_nat (ALIGNUP (sizeof_literal str))) Byte.x00
         (str ++ [Byte.x00]).

(** [FSTR_ARRAY(name, str)]: [DEFINE_FSTR_DATA_LOCAL], whose structure the
    linker puts at some address [a], followed by [LOAD_FSTR] from it. *)
Definition FSTR_ARRAY (s : Machine) (a : Z) (junk : nat -> byte)
    (str : list byte) : result (list byte) :=
  let s' := {| mem := store_bytes (mem s) a (DEFINE_FSTR_DATA str);
               flash := flash s |} in
  FlashString.LOAD_FSTR s' junk a.

(** [IMPORT_FSTR_DATA(name, file)]: what the assembler emits at the label
    [name]: [.long _name_end - name - 4], then the bytes of the file
    ([.incbin]), then the label [_name_end]. *)
Definition IMPORT_FSTR_DATA (file : list byte) : list byte :=
  let name_end := 4 + Z.of_nat (length file) in
  le_split 4 (name_end - 4) ++ file.

(** ** include/FlashMemoryStream.h

    The stream keeps a reference to a FlashString, the read position and the
    choice of backend.  [readMemoryBlock] and [seekFrom] are only declared in
    the header. *)
Module FlashMemoryStream.

Record t : Set := {
  flashString : Z;
  readPos : Z;
  flashread : bool
}.

(** The constructor; [size_t readPos = 0] is the member's initialiser. *)
Definition make (flashString : Z) (flashread : bool) : t :=
  {| flashString := flashString; readPos := 0; flashread := flashread |}.

(** [return flashString.length() - readPos;] with the result type [int] *)
Definition available (s : Machine) (st : t) : result Z :=
  n ← FlashString.length s (flashString st);
  Ok (to_int (wrap32 (n - readPos st))).

(** [return readPos >= flashString.length();] *)
Definition isFinished (s : Machine) (st : t) : result bool :=
  n ← FlashString.length s (flashString st);
  Ok (n <=? readPos st).

End FlashMemoryStream.

(** ** Builds that differ in the assertions only *)

Definition with_NDEBUG (ndebug : bool) (cfg : Platform) : Platform :=
  {| ARCH_HOST := ARCH_HOST cfg;
     NDEBUG := ndebug;
     isFlashPtr := isFlashPtr cfg;
     empty_ := empty_ cfg;
     flashmem_get_address := flashmem_get_address cfg |}.

(** * Properties *)

(** Facts about the program image are settled by evaluation. *)
Ltac evaluate := vm_compute; reflexivity.

(** ** Memory *)

Lemma load_bytes_length (m : Memory) (n : nat) :
  forall (a : Z) (B : list byte), load_bytes m a n = Some B -> length B = n.
Proof.
  induction n as [|n IH]; intros a B H; simpl in H.
  - by simplify_eq.
  - destruct (m !! a) as [b|]; simpl in H; [|done].
    destruct (load_bytes m (a + 1) n) as [bs|] eqn:E; simpl in H; [|done].
    simplify_eq. simpl. f_equal. by eapply IH.
Qed.

Lemma load_bytes_take (m : Memory) (k : nat) :
  forall (n : nat) (a : Z) (B : list byte),
    load_bytes m a n = Some B -> (k <= n)%nat ->
    load_bytes m a k = Some (take k B).
Proof.
  induction k as [|k IH]; intros n a B H Hk; [done|].
  destruct n as [|n]; [lia|]. simpl in H |- *.
  destruct (m !! a) as [b|]; simpl in H |- *; [|done].
  destruct (load_bytes m (a + 1) n) as [bs|] eqn:E; simpl in H; [|done].
  simplify_eq. rewrite (IH n (a + 1) bs) by (done || lia). done.
Qed.

Lemma load_bytes_sub (m : Memory) (off : nat) :
  forall (n k : nat) (a : Z) (B : list byte),
    load_bytes m a n = Some B -> (off + k <= n)%nat ->
    load_bytes m (a + Z.of_nat off) k = Some (take k (drop off B)).
Proof.
  induction off as [|off IH]; intros n k a B H Hk.
  - rewrite Z.add_0_r, drop_0. by eapply load_bytes_take.
  - destruct n as [|n]; [lia|]. simpl in H.
    destruct (m !! a) as [b|]; simpl in H; [|done].
    destruct (load_bytes m (a + 1) n) as [bs|] eqn:E; simpl in H; [|done].
    simplify_eq. simpl.
    replace (a + Z.of_nat (S off)) with (a + 1 + Z.of_nat off) by lia.
    eapply IH; [exact E|lia].
Qed.

Lemma load_bytes_insert_outside (m : Memory) (x : Z) (b : byte) (n : nat) :
  forall a : Z, x < a \/ a + Z.of_nat n <= x ->
    load_bytes (<[x := b]> m) a n = load_bytes m a n.
Proof.
  induction n as [|n IH]; intros a Hx; [done|]. simpl.
  rewrite lookup_insert_ne by lia. rewrite IH by lia. done.
Qed.

Lemma load_bytes_store_bytes_same (m : Memory) (bs : list byte) :
  forall a : Z, load_bytes (store_bytes m a bs) a (length bs) = Some bs.
Proof.
  induction bs as [|b bs IH]; intros a; [done|]. simpl.
  rewrite lookup_insert_eq. simpl.
  rewrite load_bytes_insert_outside by lia. by rewrite IH.
Qed.

Lemma load_bytes_store_bytes_other (m : Memory) (bs : list byte) (n : nat) :
  forall a x : Z,
    x + Z.of_nat (length bs) <= a \/ a + Z.of_nat n <= x ->
    load_bytes (store_bytes m x bs) a n = load_bytes m a n.
Proof.
  induction bs as [|b bs IH]; intros a x Hx; [done|]. simpl in *.
  rewrite load_bytes_insert_outside by lia. apply IH. lia.
Qed.

Lemma lookup_store_bytes_other (m : Memory) (bs : list byte) :
  forall a x : Z,
    a < x \/ x + Z.of_nat (length bs) <= a ->
    store_bytes m x bs !! a = m !! a.
Proof.
  induction bs as [|b bs IH]; intros a x Hx; [done|]. simpl in *.
  rewrite lookup_insert_ne by lia. apply IH. lia.
Qed.

Lemma load_uint_inv (m : Memory) (a : Z) (n : nat) (v : Z) :
  load_uint m a n = Ok v ->
  exists bs, load_bytes m a n = Some bs /\ v = le_combine bs.
Proof.
  unfold load_uint. destruct (load_bytes m a n) as [bs|]; simpl; [|done].
  intros [= <-]. by exists bs.
Qed.

Lemma load_uint_range (m : Memory) (a : Z) (n : nat) (v : Z) :
  load_uint m a n = Ok v -> 0 <= v < 2 ^ (8 * Z.of_nat n).
Proof.
  intros (bs & Hbs & ->)%load_uint_inv.
  rewrite <- (load_bytes_length _ _ _ _ Hbs). apply le_combine_bound.
Qed.

Lemma load_uint_store_uint_same (m : Memory) (a : Z) (n : nat) (v : Z) :
  0 <= v < 2 ^ (8 * Z.of_nat n) ->
  load_uint (store_uint m a n v) a n = Ok v.
Proof.
  intros Hv. unfold load_uint, store_uint.
  pose proof (load_bytes_store_bytes_same m (le_split n v) a) as H.
  rewrite length_le_split in H. rewrite H. simpl.
  rewrite le_combine_split, Z.mod_small; [done|].
  by rewrite Z.mul_comm.
Qed.

Lemma load_uint_store_uint_other (m : Memory) (a x : Z) (n k : nat) (v : Z) :
  x + Z.of_nat k <= a \/ a + Z.of_nat n <= x ->
  load_uint (store_uint m x k v) a n = load_uint m a n.
Proof.
  intros Hx. unfold load_uint, store_uint.
  rewrite load_bytes_store_bytes_other; [done|].
  by rewrite length_le_split.
Qed.

(** ** The tag bit *)

Lemma land_copyBit (v : Z) :
  0 <= v < 2 ^ 32 ->
  Z.land v ObjectBase.copyBit = if v <? 2 ^ 31 then 0 else 2 ^ 31.
Proof.
  intros Hv. change ObjectBase.copyBit with (2 ^ 31).
  apply Z.bits_inj'. intros n Hn.
  rewrite Z.land_spec, Z.pow2_bits_eqb by lia.
  destruct (Z.eqb_spec 31 n) as [<-|Hne].
  - rewrite andb_true_r, Z.testbit_eqb by lia.
    destruct (Z.ltb_spec v (2 ^ 31)).
    + by rewrite Z.div_small by lia.
    + replace (v `div` 2 ^ 31) with 1; [done|].
      apply Z.div_unique with (v - 2 ^ 31); lia.
  - rewrite andb_false_r. destruct (v <? 2 ^ 31).
    + by rewrite Z.bits_0.
    + rewrite Z.pow2_bits_eqb by lia. by destruct (Z.eqb_spec 31 n).
Qed.

Lemma land_not_copyBit (v : Z) :
  0 <= v < 2 ^ 32 ->
  Z.land v (wrap32 (Z.lnot ObjectBase.copyBit)) =
    if v <? 2 ^ 31 then v else v - 2 ^ 31.
Proof.
  intros Hv.
  change (wrap32 (Z.lnot ObjectBase.copyBit)) with (Z.ones 31).
  rewrite Z.land_ones by lia.
  destruct (Z.ltb_spec v (2 ^ 31)).
  - apply Z.mod_small. lia.
  - symmetry. apply Z.mod_unique with 1; lia.
Qed.

Lemma lor_copyBit (a : Z) :
  0 <= a < 2 ^ 31 -> wrap32 (Z.lor a ObjectBase.copyBit) = a + 2 ^ 31.
Proof.
  intros Ha.
  assert (Z.land a ObjectBase.copyBit = 0) as H0.
  { rewrite land_copyBit by lia. destruct (Z.ltb_spec a (2 ^ 31)); [done|lia]. }
  rewrite <- Z.lxor_lor, <- Z.add_nocarry_lxor by done.
  change ObjectBase.copyBit with (2 ^ 31). unfold wrap32.
  apply Z.mod_small. lia.
Qed.

(** ** Resolution of a handle *)

Lemma flashLength_range (s : Machine) (this v : Z) :
  ObjectBase.flashLength_ s this = Ok v -> 0 <= v < 2 ^ 32.
Proof. intros H. by apply load_uint_range in H. Qed.

Lemma isCopy_tag (s : Machine) (this v : Z) :
  ObjectBase.flashLength_ s this = Ok v ->
  ObjectBase.isCopy s this = Ok (2 ^ 31 <=? v).
Proof.
  intros H. pose proof (flashLength_range _ _ _ H) as Hv.
  unfold ObjectBase.isCopy. rewrite H. simpl.
  rewrite land_copyBit by done.
  destruct (Z.ltb_spec v (2 ^ 31)), (Z.leb_spec (2 ^ 31) v); done || lia.
Qed.

Lemma getObjectPtr_eq (cfg : Platform) (s : Machine) (this v : Z) :
  ObjectBase.flashLength_ s this = Ok v ->
  ObjectBase.getObjectPtr cfg s this =
    if 2 ^ 31 <=? v then Ok (v - 2 ^ 31)
    else if v =? 0 then Ok (empty_ cfg)
    else if ARCH_HOST cfg || isFlashPtr cfg this then Ok this
    else if NDEBUG cfg then Ok (empty_ cfg)
    else Err AssertFailed.
Proof.
  intros H. pose proof (flashLength_range _ _ _ H) as Hv.
  unfold ObjectBase.getObjectPtr. rewrite (isCopy_tag _ _ _ H). simpl.
  rewrite H. simpl.
  destruct (Z.leb_spec (2 ^ 31) v) as [Hc|Hc].
  - rewrite land_not_copyBit by done.
    destruct (Z.ltb_spec v (2 ^ 31)); [lia|done].
  - destruct (v =? 0); [done|].
    unfold assert.
    destruct (ARCH_HOST cfg), (isFlashPtr cfg this), (NDEBUG cfg); done.
Qed.

(** C1, as the code has it.  Resolution is a case split on the stored value
    [v] of the handle: a handle that carries the copy tag resolves to the
    address [v] with the tag bit masked out; otherwise a handle whose length
    field is 0 resolves to the empty singleton; otherwise the handle resolves
    to itself on a Host build or when its address passes [isFlashPtr]; and
    otherwise (a target build and an address outside flash) it resolves to the
    empty singleton when assertions are compiled out and aborts on the
    assertion when they are not.  [length], [data], [read] and [readFlash]
    act on the resolved handle [p]: they are the length field of [p], the
    address after that field, the cached read of the object at [p] and the
    device read of the object at [p]. *)
Theorem resolution_cases (cfg : Platform) (s : Machine) (this v : Z) :
  ObjectBase.flashLength_ s this = Ok v ->
  ObjectBase.isCopy s this = Ok (2 ^ 31 <=? v)
  /\ ObjectBase.getObjectPtr cfg s this =
       (if 2 ^ 31 <=? v then Ok (v - 2 ^ 31)
        else if v =? 0 then Ok (empty_ cfg)
        else if ARCH_HOST cfg || isFlashPtr cfg this then Ok this
        else if NDEBUG cfg then Ok (empty_ cfg)
        else Err AssertFailed)
  /\ forall p : Z, ObjectBase.getObjectPtr cfg s this = Ok p ->
       ObjectBase.length cfg s this = ObjectBase.flashLength_ s p
       /\ ObjectBase.data cfg s this = Ok (p + 4)
       /\ (forall (offset : Z) (buffer : list byte) (count : Z),
             ObjectBase.read cfg s this offset buffer count =
               FlashString.read s p offset buffer count)
       /\ (forall (offset : Z) (buffer : list byte) (count : Z),
             ObjectBase.readFlash cfg s this offset buffer count =
               (len ← ObjectBase.flashLength_ s p;
                if len <=? offset then Ok (buffer, 0)
                else flashmem_read s buffer
                       (flashmem_get_address cfg (p + 4 + offset))
                       (std_min (wrap32 (len - offset)) count))).
Proof.
  intros H. split; [by apply isCopy_tag|].
  split; [by apply getObjectPtr_eq|].
  intros p Hp. repeat split.
  - unfold ObjectBase.length. by rewrite Hp.
  - unfold ObjectBase.data. by rewrite Hp.
  - intros offset buffer count.
    unfold ObjectBase.read, ObjectBase.length, ObjectBase.data,
      FlashString.read, FlashString.flashLength, FlashString.data.
    rewrite Hp. simpl. unfold ObjectBase.getObjectLength, ObjectBase.flashLength_.
    destruct (load_uint (mem s) p 4) as [len|e]; simpl; [|done].
    by destruct (len <=? offset).
  - intros offset buffer count.
    unfold ObjectBase.readFlash. by rewrite Hp.
Qed.

Lemma resolution_cases_witness :
  ObjectBase.flashLength_ image_duplicate duplicate = Ok 0xC0202000
  /\ ObjectBase.isCopy image_duplicate duplicate = Ok true
  /\ ObjectBase.getObjectPtr (esp8266 false) image_duplicate duplicate
       = Ok numbers
  /\ ObjectBase.length (esp8266 false) image_duplicate duplicate
       = ObjectBase.flashLength_ image_duplicate numbers
  /\ ObjectBase.data (esp8266 false) image_duplicate duplicate
       = Ok (numbers + 4).
Proof.
  assert (ObjectBase.flashLength_ image_duplicate duplicate = Ok 0xC0202000)
    as H by evaluate.
  split; [exact H|].
  destruct (resolution_cases (esp8266 false) _ _ _ H) as (Hc & Hp & Hops).
  split; [exact Hc|]. split; [exact Hp|].
  destruct (Hops numbers Hp) as (Hlen & Hdata & _).
  split; [exact Hlen|exact Hdata].
Defined.

(** C1 as stated fails: on a release build for the target, a handle in RAM
    that has no copy tag and a length field of 20 does not resolve to
    itself. *)
Lemma resolution_not_three_way :
  ObjectBase.isCopy image_stray stray = Ok false
  /\ ObjectBase.flashLength_ image_stray stray = Ok 20
  /\ ObjectBase.getObjectPtr (esp8266 true) image_stray stray
       = Ok (empty_ (esp8266 true))
  /\ ObjectBase.getObjectPtr (esp8266 true) image_stray stray <> Ok stray.
Proof. repeat split; vm_compute; congruence. Qed.

(** C4, as the code has it.  For a handle without copy tag, with a
    non-zero length field and an address that fails [isFlashPtr]: a Host
    build skips the check and resolves the handle to itself; a target build
    always checks, and resolves to the empty singleton when assertions are
    compiled out (release) and aborts on the assertion when they are enabled
    (debug). *)
Theorem resolution_outside_flash (cfg : Platform) (s : Machine) (this v : Z) :
  ObjectBase.flashLength_ s this = Ok v ->
  0 < v < 2 ^ 31 ->
  isFlashPtr cfg this = false ->
  ObjectBase.getObjectPtr cfg s this =
    if ARCH_HOST cfg then Ok this
    else if NDEBUG cfg then Ok (empty_ cfg)
    else Err AssertFailed.
Proof.
  intros H Hv Hf. rewrite (getObjectPtr_eq _ _ _ _ H), Hf, orb_false_r.
  destruct (Z.leb_spec (2 ^ 31) v); [lia|].
  destruct (Z.eqb_spec v 0); [lia|done].
Qed.

Lemma resolution_outside_flash_witness :
  ObjectBase.flashLength_ image_stray stray = Ok 20
  /\ 0 < 20 < 2 ^ 31
  /\ isFlashPtr host stray = false
  /\ ObjectBase.getObjectPtr host image_stray stray = Ok stray
  /\ ObjectBase.getObjectPtr (esp8266 true) image_stray stray
       = Ok (empty_ (esp8266 true))
  /\ ObjectBase.getObjectPtr (esp8266 false) image_stray stray
       = Err AssertFailed.
Proof.
  assert (ObjectBase.flashLength_ image_stray stray = Ok 20) as H by evaluate.
  assert (0 < 20 < 2 ^ 31) as Hv by lia.
  assert (forall cfg, isFlashPtr cfg = isFlashPtr host ->
            isFlashPtr cfg stray = false) as Hf by (by intros cfg ->).
  split; [exact H|]. split; [exact Hv|]. split; [by apply Hf|].
  split; [|split].
  - exact (resolution_outside_flash host _ _ _ H Hv (Hf _ eq_refl)).
  - exact (resolution_outside_flash (esp8266 true) _ _ _ H Hv (Hf _ eq_refl)).
  - exact (resolution_outside_flash (esp8266 false) _ _ _ H Hv (Hf _ eq_refl)).
Defined.

(** C4 as stated fails both ways: the debug build aborts instead of
    falling back to the empty singleton, and the release build does run the
    check and falls back instead of trusting the handle. *)
Lemma fallback_not_debug_only :
  isFlashPtr (esp8266 false) stray = false
  /\ ObjectBase.getObjectPtr (esp8266 false) image_stray stray
       = Err AssertFailed
  /\ ObjectBase.getObjectPtr (esp8266 false) image_stray stray
       <> Ok (empty_ (esp8266 false))
  /\ ObjectBase.getObjectPtr (esp8266 true) image_stray stray
       = Ok (empty_ (esp8266 true))
  /\ ObjectBase.getObjectPtr (esp8266 true) image_stray stray <> Ok stray.
Proof. repeat split; vm_compute; congruence. Qed.

(** ** Reading bytes *)

Lemma memcpy_ok (buffer src : list byte) :
  (length src <= length buffer)%nat ->
  memcpy buffer src = Ok (src ++ drop (length src) buffer).
Proof.
  intros H. unfold memcpy.
  destruct (Nat.leb_spec (length src) (length buffer)); [done|lia].
Qed.

Lemma std_min_clamp (len offset count : Z) :
  0 <= offset < len -> len < 2 ^ 32 ->
  std_min (wrap32 (len - offset)) count = Z.min count (len - offset).
Proof.
  intros Ho Hl. unfold std_min, wrap32.
  rewrite Z.mod_small by lia.
  destruct (Z.ltb_spec count (len - offset)); lia.
Qed.

Lemma load_slice (m : Memory) (a len : Z) (B : list byte) (offset n : Z) :
  load_bytes m a (Z.to_nat len) = Some B ->
  0 <= offset -> 0 <= n -> offset + n <= len ->
  load_bytes m (a + offset) (Z.to_nat n) =
    Some (take (Z.to_nat n) (drop (Z.to_nat offset) B)).
Proof.
  intros HB Ho Hn Hle.
  rewrite <- (Z2Nat.id offset) at 1 by done.
  eapply load_bytes_sub; [exact HB|lia].
Qed.

Lemma slice_length (B : list byte) (offset n : Z) :
  0 <= offset -> 0 <= n -> offset + n <= Z.of_nat (length B) ->
  length (take (Z.to_nat n) (drop (Z.to_nat offset) B)) = Z.to_nat n.
Proof. intros. rewrite length_take, length_drop. lia. Qed.

(** The cached read of the object at [p]. *)
Lemma cached_read (s : Machine) (p len offset count : Z)
    (buffer B : list byte) :
  ObjectBase.flashLength_ s p = Ok len ->
  load_bytes (mem s) (p + 4) (Z.to_nat len) = Some B ->
  0 <= offset < len -> 0 <= count ->
  Z.min count (len - offset) <= Z.of_nat (length buffer) ->
  FlashString.read s p offset buffer count =
    Ok (take (Z.to_nat (Z.min count (len - offset))) (drop (Z.to_nat offset) B)
          ++ drop (Z.to_nat (Z.min count (len - offset))) buffer,
        Z.min count (len - offset)).
Proof.
  intros Hlen HB Ho Hc Hroom.
  pose proof (flashLength_range _ _ _ Hlen) as Hl.
  pose proof (load_bytes_length _ _ _ _ HB) as HlB.
  unfold FlashString.read, FlashString.flashLength.
  unfold ObjectBase.flashLength_ in Hlen. rewrite Hlen. simpl.
  destruct (Z.leb_spec len offset); [lia|].
  rewrite std_min_clamp by lia.
  set (n := Z.min count (len - offset)) in *.
  unfold memcpy_P, FlashString.data.
  rewrite (load_slice _ _ len B) by (done || lia). simpl.
  rewrite memcpy_ok; rewrite slice_length by lia; [done|lia].
Qed.

(** The device read of the object at [p], where the device holds the bytes
    the CPU sees at the translated address. *)
Lemma device_read (cfg : Platform) (s : Machine) (p len offset count : Z)
    (buffer B : list byte) :
  ObjectBase.flashLength_ s p = Ok len ->
  load_bytes (mem s) (p + 4) (Z.to_nat len) = Some B ->
  0 <= offset < len -> 0 <= count ->
  Z.min count (len - offset) <= Z.of_nat (length buffer) ->
  load_bytes (flash s) (flashmem_get_address cfg (p + 4 + offset))
      (Z.to_nat (Z.min count (len - offset))) =
    load_bytes (mem s) (p + 4 + offset)
      (Z.to_nat (Z.min count (len - offset))) ->
  flashmem_read s buffer (flashmem_get_address cfg (p + 4 + offset))
      (std_min (wrap32 (len - offset)) count) =
    Ok (take (Z.to_nat (Z.min count (len - offset))) (drop (Z.to_nat offset) B)
          ++ drop (Z.to_nat (Z.min count (len - offset))) buffer,
        Z.min count (len - offset)).
Proof.
  intros Hlen HB Ho Hc Hroom Hdev.
  pose proof (flashLength_range _ _ _ Hlen) as Hl.
  pose proof (load_bytes_length _ _ _ _ HB) as HlB.
  rewrite std_min_clamp by lia.
  set (n := Z.min count (len - offset)) in *.
  unfold flashmem_read. rewrite Hdev.
  rewrite (load_slice _ _ len B) by (done || lia). simpl.
  rewrite memcpy_ok; rewrite slice_length by lia; [done|lia].
Qed.

(** The cached read of a handle is the cached read of the object it
    resolves to. *)
Lemma read_at_resolved (cfg : Platform) (s : Machine) (this p : Z)
    (offset : Z) (buffer : list byte) (count : Z) :
  ObjectBase.getObjectPtr cfg s this = Ok p ->
  ObjectBase.read cfg s this offset buffer count
    = FlashString.read s p offset buffer count.
Proof.
  intros Hp.
  unfold ObjectBase.read, ObjectBase.length, ObjectBase.data,
    FlashString.read, FlashString.flashLength. rewrite Hp. simpl.
  unfold ObjectBase.getObjectLength, ObjectBase.flashLength_.
  destruct (load_uint (mem s) p 4) as [len|e]; simpl; [|done].
  by destruct (len <=? offset).
Qed.

(** C3.  Let the length field of the object at [p] be [len].  A read at
    an offset at or past [len] returns 0 and leaves the buffer as it was.  A
    read at an offset below [len], of an object holding the bytes [B], copies
    the [n = min(count, len - offset)] bytes of [B] from [offset] on to the
    start of the buffer and returns [n].  This holds for the cached read of
    the FlashString at [p], and for the cached and the device read of any
    handle that resolves to [p], the device read provided the device holds at
    the translated address what the CPU sees.  Reading [len] bytes at offset
    0 into a buffer of [len] bytes leaves exactly [B] in the buffer. *)
Theorem read_clamps (cfg : Platform) (s : Machine) (this p len : Z)
    (offset count : Z) (buffer : list byte) :
  ObjectBase.flashLength_ s p = Ok len ->
  0 <= offset -> 0 <= count ->
  let n := Z.min count (len - offset) in
  let device_agrees :=
    load_bytes (flash s) (flashmem_get_address cfg (p + 4 + offset))
      (Z.to_nat n)
    = load_bytes (mem s) (p + 4 + offset) (Z.to_nat n) in
  (FlashString.length s p = Ok len
   /\ (len <= offset ->
         FlashString.read s p offset buffer count = Ok (buffer, 0))
   /\ (forall B : list byte,
         offset < len ->
         load_bytes (mem s) (p + 4) (Z.to_nat len) = Some B ->
         n <= Z.of_nat (length buffer) ->
         Z.of_nat (length (take (Z.to_nat n) (drop (Z.to_nat offset) B))) = n
         /\ FlashString.read s p offset buffer count
              = Ok (copied B offset n buffer, n)))
  /\ (ObjectBase.getObjectPtr cfg s this = Ok p ->
        ObjectBase.length cfg s this = Ok len
        /\ (len <= offset ->
              ObjectBase.read cfg s this offset buffer count = Ok (buffer, 0)
              /\ ObjectBase.readFlash cfg s this offset buffer count
                   = Ok (buffer, 0))
        /\ (forall B : list byte,
              offset < len ->
              load_bytes (mem s) (p + 4) (Z.to_nat len) = Some B ->
              n <= Z.of_nat (length buffer) ->
              ObjectBase.read cfg s this offset buffer count
                = Ok (copied B offset n buffer, n)
              /\ (device_agrees ->
                    ObjectBase.readFlash cfg s this offset buffer count
                      = Ok (copied B offset n buffer, n))))
  /\ (forall B : list byte,
        offset = 0 -> count = len -> Z.of_nat (length buffer) = len ->
        load_bytes (mem s) (p + 4) (Z.to_nat len) = Some B ->
        FlashString.read s p offset buffer count = Ok (B, len)
        /\ (ObjectBase.getObjectPtr cfg s this = Ok p ->
              ObjectBase.read cfg s this offset buffer count = Ok (B, len)
              /\ (device_agrees ->
                    ObjectBase.readFlash cfg s this offset buffer count
                      = Ok (B, len)))).
Proof.
  intros Hlen Ho Hc n device_agrees.
  pose proof (flashLength_range _ _ _ Hlen) as Hl.
  assert (len <= offset ->
          FlashString.read s p offset buffer count = Ok (buffer, 0)) as Hpast.
  { intros Hpast. unfold FlashString.read, FlashString.flashLength.
    unfold ObjectBase.flashLength_ in Hlen. rewrite Hlen. simpl.
    destruct (Z.leb_spec len offset); [done|lia]. }
  assert (forall B : list byte,
            offset < len ->
            load_bytes (mem s) (p + 4) (Z.to_nat len) = Some B ->
            n <= Z.of_nat (length buffer) ->
            FlashString.read s p offset buffer count
              = Ok (copied B offset n buffer, n)) as Hin.
  { intros B Hlt HB Hroom. by apply cached_read. }
  assert (ObjectBase.getObjectPtr cfg s this = Ok p ->
          ObjectBase.readFlash cfg s this offset buffer count
          = if len <=? offset then Ok (buffer, 0)
            else flashmem_read s buffer
                   (flashmem_get_address cfg (p + 4 + offset))
                   (std_min (wrap32 (len - offset)) count)) as Hflash.
  { intros Hp. unfold ObjectBase.readFlash. rewrite Hp. simpl.
    unfold ObjectBase.getObjectLength. by rewrite Hlen. }
  assert (forall B : list byte,
            offset = 0 -> count = len -> Z.of_nat (length buffer) = len ->
            load_bytes (mem s) (p + 4) (Z.to_nat len) = Some B ->
            (len = 0 /\ B = [] /\ buffer = [])
            \/ (offset < len /\ n = len /\ copied B offset n buffer = B))
    as Hwhole.
  { intros B Ho0 Hcl Hroom HB.
    pose proof (load_bytes_length _ _ _ _ HB) as HlB.
    destruct (Z.eq_dec len 0) as [E|E].
    - left. split; [done|].
      destruct B; [|simpl in HlB; lia]. destruct buffer; [done|].
      simpl in Hroom. lia.
    - right. split; [lia|]. split; [lia|]. unfold copied.
      replace n with len by lia. rewrite Ho0. simpl. rewrite drop_0.
      rewrite take_ge, drop_ge by lia. by rewrite app_nil_r. }
  split; [|split].
  - split; [exact Hlen|]. split; [exact Hpast|].
    intros B Hlt HB Hroom. split; [|by apply Hin].
    pose proof (load_bytes_length _ _ _ _ HB) as HlB.
    rewrite slice_length by lia. lia.
  - intros Hp. split; [|split].
    + unfold ObjectBase.length. rewrite Hp. exact Hlen.
    + intros Hge. rewrite (read_at_resolved _ _ _ _ _ _ _ Hp), (Hflash Hp).
      split; [by apply Hpast|].
      destruct (Z.leb_spec len offset); [done|lia].
    + intros B Hlt HB Hroom.
      rewrite (read_at_resolved _ _ _ _ _ _ _ Hp), (Hflash Hp).
      split; [by apply Hin|]. intros Hdev.
      destruct (Z.leb_spec len offset); [lia|].
      by apply device_read.
  - intros B Ho0 Hcl Hroom HB.
    destruct (Hwhole B Ho0 Hcl Hroom HB)
      as [(-> & -> & ->)|(Hlt & Hn & Hall)].
    + split; [apply Hpast; lia|]. intros Hp.
      rewrite (read_at_resolved _ _ _ _ _ _ _ Hp), (Hflash Hp).
      split; [apply Hpast; lia|]. intros _.
      destruct (Z.leb_spec 0 offset); [done|lia].
    + assert (n <= Z.of_nat (length buffer)) as Hfits by lia.
      split; [rewrite (Hin B Hlt HB Hfits); by rewrite Hall, Hn|].
      intros Hp.
      rewrite (read_at_resolved _ _ _ _ _ _ _ Hp), (Hflash Hp).
      split; [rewrite (Hin B Hlt HB Hfits); by rewrite Hall, Hn|].
      intros Hdev. destruct (Z.leb_spec len offset); [lia|].
      rewrite (device_read cfg s p len offset count buffer B)
        by (done || lia).
      fold n. fold (copied B offset n buffer). by rewrite Hall, Hn.
Qed.

Lemma read_clamps_witness :
  ObjectBase.flashLength_ image_duplicate numbers = Ok 20
  /\ 0 <= 12 /\ 0 <= 40
  /\ ObjectBase.getObjectPtr (esp8266 true) image_duplicate duplicate
       = Ok numbers
  /\ ObjectBase.readFlash (esp8266 true) image_duplicate duplicate 12
       (replicate 12 Byte.xff) 40
     = Ok (le_split 4 40 ++ le_split 4 50 ++ replicate 4 Byte.xff, 8)
  /\ FlashString.read image_duplicate numbers 12 (replicate 12 Byte.xff) 40
     = Ok (le_split 4 40 ++ le_split 4 50 ++ replicate 4 Byte.xff, 8).
Proof.
  assert (ObjectBase.flashLength_ image_duplicate numbers = Ok 20)
    as Hlen by evaluate.
  assert (0 <= 12) as H12 by lia.
  assert (0 <= 40) as H40 by lia.
  assert (ObjectBase.getObjectPtr (esp8266 true) image_duplicate duplicate
          = Ok numbers) as Hp by evaluate.
  split; [exact Hlen|]. split; [exact H12|]. split; [exact H40|].
  split; [exact Hp|].
  destruct (read_clamps (esp8266 true) image_duplicate duplicate numbers 20
              12 40 (replicate 12 Byte.xff) Hlen H12 H40)
    as ((_ & _ & Hlegacy) & Hhandle & _).
  split.
  - destruct (Hhandle Hp) as (_ & _ & Hin).
    destruct (Hin numbers_data) as [_ Hflash];
      [lia|evaluate|simpl; lia|].
    apply Hflash. evaluate.
  - destruct (Hlegacy numbers_data) as [_ Hread];
      [lia|evaluate|simpl; lia|].
    exact Hread.
Defined.

(** ** Copies *)

(** C2.  Let [H] be a canonical handle: it holds the bytes [B], carries no
    tag, lies where canonical handles lie (on a target build, in flash) at an
    address that fits beside the tag, and the empty singleton is in place.
    Let [H2] be the handle the copy constructor makes from [H] in storage of
    its own.  Then [H2] and [H] have the same length and the same bytes
    behind [data()], [H2] is a copy and [H] is not, and constructing [H2]
    writes nothing but the four bytes of its field, which hold the address of
    [H] with the tag bit set. *)
Theorem copy_is_transparent (cfg : Platform) (s : Machine) (H H2 : Z)
    (B : list byte) :
  holds s H B ->
  Z.of_nat (length B) < 2 ^ 31 ->
  0 <= H < 2 ^ 31 ->
  ARCH_HOST cfg || isFlashPtr cfg H = true ->
  ObjectBase.flashLength_ s (empty_ cfg) = Ok 0 ->
  H2 + 4 <= H \/ H + 4 + Z.of_nat (length B) <= H2 ->
  H2 + 4 <= empty_ cfg \/ empty_ cfg + 4 <= H2 ->
  let s' := ObjectBase.copy s H2 H in
  ObjectBase.length cfg s' H2 = Ok (Z.of_nat (length B))
  /\ ObjectBase.length cfg s' H = Ok (Z.of_nat (length B))
  /\ contents cfg s' H2 = Ok B
  /\ contents cfg s' H = Ok B
  /\ ObjectBase.isCopy s' H2 = Ok true
  /\ ObjectBase.isCopy s' H = Ok false
  /\ ObjectBase.flashLength_ s' H2 = Ok (H + 2 ^ 31)
  /\ ObjectBase.getObjectPtr cfg s' H2 = Ok H
  /\ (forall a : Z, a < H2 \/ H2 + 4 <= a -> mem s' !! a = mem s !! a)
  /\ flash s' = flash s.
Proof.
  intros [Hlen HB] Htag HH Hflash Hempty Hapart Hapart' s'.
  set (len := Z.of_nat (length B)) in *.
  assert (ObjectBase.flashLength_ s' H2 = Ok (H + 2 ^ 31)) as Hv2.
  { unfold s', ObjectBase.copy, ObjectBase.flashLength_. simpl.
    rewrite lor_copyBit by done.
    apply load_uint_store_uint_same. simpl. lia. }
  assert (ObjectBase.flashLength_ s' H = Ok len) as Hv.
  { unfold s', ObjectBase.copy, ObjectBase.flashLength_. simpl.
    rewrite load_uint_store_uint_other by lia. exact Hlen. }
  assert (ObjectBase.flashLength_ s' (empty_ cfg) = Ok 0) as Hv0.
  { unfold s', ObjectBase.copy, ObjectBase.flashLength_. simpl.
    rewrite load_uint_store_uint_other by lia. exact Hempty. }
  assert (load_bytes (mem s') (H + 4) (length B) = Some B) as HB'.
  { unfold s', ObjectBase.copy. cbn [mem]. unfold store_uint.
    rewrite load_bytes_store_bytes_other; [done|].
    rewrite length_le_split. lia. }
  assert (forall a : Z, a < H2 \/ H2 + 4 <= a -> mem s' !! a = mem s !! a)
    as Hmem.
  { intros a Ha. unfold s', ObjectBase.copy. cbn [mem]. unfold store_uint.
    apply lookup_store_bytes_other. rewrite length_le_split. lia. }
  assert (flash s' = flash s) as Hdev by done.
  clearbody s'.
  assert (ObjectBase.getObjectPtr cfg s' H2 = Ok H) as Hp2.
  { rewrite (getObjectPtr_eq _ _ _ _ Hv2).
    destruct (Z.leb_spec (2 ^ 31) (H + 2 ^ 31)); [|lia]. f_equal. lia. }
  assert (ObjectBase.getObjectPtr cfg s' H
          = Ok (if len =? 0 then empty_ cfg else H)) as Hp.
  { rewrite (getObjectPtr_eq _ _ _ _ Hv), Hflash.
    destruct (Z.leb_spec (2 ^ 31) len); [lia|]. by destruct (len =? 0). }
  assert (ObjectBase.length cfg s' H = Ok len) as HlenH.
  { unfold ObjectBase.length, ObjectBase.getObjectLength. rewrite Hp. simpl.
    destruct (Z.eqb_spec len 0) as [E|E]; [by rewrite E, Hv0|done]. }
  split. { unfold ObjectBase.length. rewrite Hp2. exact Hv. }
  split. { exact HlenH. }
  split.
  { unfold contents, ObjectBase.data, ObjectBase.length. rewrite Hp2. simpl.
    unfold ObjectBase.getObjectLength. rewrite Hv. simpl.
    unfold ObjectBase.getObjectData, len. by rewrite Nat2Z.id, HB'. }
  split.
  { unfold contents. rewrite HlenH. unfold ObjectBase.data. rewrite Hp. simpl.
    unfold ObjectBase.getObjectData.
    destruct (Z.eqb_spec len 0) as [E|E].
    - rewrite E. simpl. destruct B; [done|]. simpl in *. lia.
    - unfold len. by rewrite Nat2Z.id, HB'. }
  split.
  { rewrite (isCopy_tag _ _ _ Hv2). f_equal. apply Z.leb_le. lia. }
  split.
  { rewrite (isCopy_tag _ _ _ Hv). f_equal. apply Z.leb_gt. lia. }
  split. { exact Hv2. }
  split. { exact Hp2. }
  split; [exact Hmem|exact Hdev].
Qed.

Lemma copy_is_transparent_witness :
  holds image numbers numbers_data
  /\ ObjectBase.length (esp8266 false) image_duplicate duplicate = Ok 20
  /\ contents (esp8266 false) image_duplicate duplicate = Ok numbers_data
  /\ contents (esp8266 false) image_duplicate numbers = Ok numbers_data
  /\ ObjectBase.isCopy image_duplicate duplicate = Ok true
  /\ ObjectBase.isCopy image_duplicate numbers = Ok false.
Proof.
  assert (holds image numbers numbers_data) as Hh
    by (split; vm_compute; reflexivity).
  split; [exact Hh|].
  destruct (copy_is_transparent (esp8266 false) image numbers duplicate
              numbers_data Hh)
    as (H1 & _ & H3 & H4 & H5 & H6 & _).
  - simpl. lia.
  - unfold numbers. lia.
  - reflexivity.
  - vm_compute. reflexivity.
  - left. unfold numbers, duplicate. lia.
  - left. unfold duplicate. simpl. lia.
  - exact (conj H1 (conj H3 (conj H4 (conj H5 H6)))).
Defined.

(** ** The element read dispatch *)

Lemma IS_ALIGNED_mod (sz : Z) : IS_ALIGNED sz = (sz mod 4 =? 0).
Proof.
  unfold IS_ALIGNED. change 3 with (Z.ones 2).
  by rewrite Z.land_ones by lia.
Qed.

Lemma viable_eq (sz : Z) :
  viable sz =
    (if sz =? 1 then [ByteRead] else [])
      ++ (if sz =? 2 then [WordRead] else [])
      ++ (if IS_ALIGNED sz then [Dereference] else []).
Proof.
  unfold viable, readValue_templates.
  rewrite !filter_cons, filter_nil. simpl.
  destruct (sz =? 1), (sz =? 2), (IS_ALIGNED sz); reflexivity.
Qed.

Lemma resolve_readValue_aligned (sz : Z) :
  IS_ALIGNED sz = true -> resolve_readValue sz = Ok Dereference.
Proof.
  intros Ha. unfold resolve_readValue. rewrite viable_eq, Ha.
  rewrite IS_ALIGNED_mod in Ha. apply Z.eqb_eq in Ha.
  destruct (Z.eqb_spec sz 1) as [->|_]; [done|].
  destruct (Z.eqb_spec sz 2) as [->|_]; done.
Qed.

Lemma resolve_readValue_none (sz : Z) :
  sz <> 1 -> sz <> 2 -> IS_ALIGNED sz = false ->
  resolve_readValue sz = Err NoOverload.
Proof.
  intros H1 H2 Ha. unfold resolve_readValue. rewrite viable_eq, Ha.
  destruct (Z.eqb_spec sz 1); [done|]. by destruct (Z.eqb_spec sz 2).
Qed.

Lemma resolve_readValue_inv (sz : Z) (st : strategy) :
  resolve_readValue sz = Ok st ->
  (sz = 1 /\ st = ByteRead) \/ (sz = 2 /\ st = WordRead)
  \/ (sz mod 4 = 0 /\ st = Dereference).
Proof.
  intros H.
  destruct (Z.eq_dec sz 1) as [->|H1].
  { left. split; [done|]. vm_compute in H. by simplify_eq. }
  destruct (Z.eq_dec sz 2) as [->|H2].
  { right. left. split; [done|]. vm_compute in H. by simplify_eq. }
  destruct (IS_ALIGNED sz) eqn:Ha.
  - right. right. rewrite (resolve_readValue_aligned _ Ha) in H.
    rewrite IS_ALIGNED_mod in Ha. apply Z.eqb_eq in Ha. by simplify_eq.
  - by rewrite (resolve_readValue_none _ H1 H2 Ha) in H.
Qed.

Lemma bind_Ok_id {A : Type} (c : result A) : (v ← c; Ok v) = c.
Proof. by destruct c. Qed.

(** On this machine, whichever template is selected, it loads the [sz]
    bytes at [ptr]. *)
Lemma readValue_load (sz : Z) (st : strategy) (s : Machine) (ptr : Z) :
  resolve_readValue sz = Ok st ->
  readValue sz s ptr = load_uint (mem s) ptr (Z.to_nat sz).
Proof.
  unfold readValue, readValue_via. intros H. rewrite H. simpl.
  destruct (resolve_readValue_inv _ _ H) as [[-> ->]|[[-> ->]|[_ ->]]]; simpl.
  - apply bind_Ok_id.
  - apply bind_Ok_id.
  - done.
Qed.

(** C7.  Which template [readValue] uses is a function of the element
    size alone, settled before any pointer or memory is at hand.  Whatever
    the reads are that the templates are written against: size 1 goes through
    the byte read ([pgm_read_byte]) and casts what it returns, size 2 goes
    through the half-word read ([pgm_read_word]) and casts what it returns, a
    size that is a multiple of the four-byte word dereferences the pointer;
    for any other size no template is viable and the call does not build,
    whatever the memory and the pointer, and neither does it for size 1 or 2
    where the element type has no cast from an integer.  [readValue] as
    [valueAt] calls it is this dispatch over the machine's reads. *)
Theorem readValue_dispatch :
  resolve_readValue 1 = Ok ByteRead
  /\ resolve_readValue 2 = Ok WordRead
  /\ (forall sz : Z, IS_ALIGNED sz = true ->
        sz mod 4 = 0 /\ resolve_readValue sz = Ok Dereference)
  /\ (forall sz : Z, sz <> 1 -> sz <> 2 -> IS_ALIGNED sz = false ->
        resolve_readValue sz = Err NoOverload)
  /\ (forall (via : Reads) (s : Machine) (ptr : Z),
        readValue_via via 1 s ptr =
          if convertible via
          then v ← byte_read via s ptr; Ok (converted via v)
          else Err NoOverload)
  /\ (forall (via : Reads) (s : Machine) (ptr : Z),
        readValue_via via 2 s ptr =
          if convertible via
          then v ← word_read via s ptr; Ok (converted via v)
          else Err NoOverload)
  /\ (forall (via : Reads) (sz : Z) (s : Machine) (ptr : Z),
        IS_ALIGNED sz = true ->
        readValue_via via sz s ptr = direct via sz s ptr)
  /\ (forall (via : Reads) (sz : Z) (s : Machine) (ptr : Z),
        sz <> 1 -> sz <> 2 -> IS_ALIGNED sz = false ->
        readValue_via via sz s ptr = Err NoOverload)
  /\ (forall (sz : Z) (s : Machine) (ptr : Z),
        readValue sz s ptr = readValue_via framework sz s ptr)
  /\ (forall (s : Machine) (ptr : Z),
        readValue 1 s ptr = pgm_read_byte s ptr)
  /\ (forall (s : Machine) (ptr : Z),
        readValue 2 s ptr = pgm_read_word s ptr)
  /\ (forall (sz : Z) (s : Machine) (ptr : Z), IS_ALIGNED sz = true ->
        readValue sz s ptr = load_uint (mem s) ptr (Z.to_nat sz))
  /\ (forall (sz : Z) (s : Machine) (ptr : Z),
        sz <> 1 -> sz <> 2 -> IS_ALIGNED sz = false ->
        readValue sz s ptr = Err NoOverload)
  /\ (forall (sz : Z) (st : strategy), resolve_readValue sz = Ok st ->
        (sz = 1 /\ st = ByteRead) \/ (sz = 2 /\ st = WordRead)
        \/ (sz mod 4 = 0 /\ st = Dereference)).
Proof.
  split; [reflexivity|]. split; [reflexivity|].
  split.
  { intros sz Ha. split; [|by apply resolve_readValue_aligned].
    rewrite IS_ALIGNED_mod in Ha. by apply Z.eqb_eq in Ha. }
  split; [exact resolve_readValue_none|].
  split; [reflexivity|]. split; [reflexivity|].
  split.
  { intros via sz s ptr Ha. unfold readValue_via.
    by rewrite (resolve_readValue_aligned _ Ha). }
  split.
  { intros via sz s ptr H1 H2 Ha. unfold readValue_via.
    by rewrite (resolve_readValue_none _ H1 H2 Ha). }
  split; [reflexivity|].
  split. { intros s ptr. apply (bind_Ok_id (pgm_read_byte s ptr)). }
  split. { intros s ptr. apply (bind_Ok_id (pgm_read_word s ptr)). }
  split.
  { intros sz s ptr Ha. unfold readValue, readValue_via.
    by rewrite (resolve_readValue_aligned _ Ha). }
  split.
  { intros sz s ptr H1 H2 Ha. unfold readValue, readValue_via.
    by rewrite (resolve_readValue_none _ H1 H2 Ha). }
  exact resolve_readValue_inv.
Qed.

Lemma readValue_dispatch_witness :
  readValue_via probe 1 image numbers = Ok 1
  /\ readValue_via probe 2 image numbers = Ok 2
  /\ readValue_via probe 8 image numbers = Ok 108
  /\ readValue_via probe 3 image numbers = Err NoOverload.
Proof.
  destruct readValue_dispatch
    as (_ & _ & _ & _ & Hbyte & Hword & Hdirect & Hnone & _).
  split; [exact (Hbyte probe image numbers)|].
  split; [exact (Hword probe image numbers)|].
  split; [exact (Hdirect probe 8 image numbers eq_refl)|].
  apply Hnone; [lia|lia|reflexivity].
Defined.

(** ** Indexed access *)

Lemma typed_length_eq (sizeofT : Z) (cfg : Platform) (s : Machine)
    (this p len : Z) :
  ObjectBase.getObjectPtr cfg s this = Ok p ->
  ObjectBase.flashLength_ s p = Ok len ->
  Object.length sizeofT cfg s this = Ok (len / sizeofT).
Proof.
  intros Hp Hlen. unfold Object.length, ObjectBase.length. rewrite Hp. simpl.
  unfold ObjectBase.getObjectLength. by rewrite Hlen.
Qed.

Lemma valueAt_eq (sizeofT : Z) (cfg : Platform) (s : Machine)
    (this p len index : Z) (st : strategy) :
  resolve_readValue sizeofT = Ok st ->
  ObjectBase.getObjectPtr cfg s this = Ok p ->
  ObjectBase.flashLength_ s p = Ok len ->
  Object.valueAt sizeofT cfg s this index =
    if index <? len / sizeofT
    then load_uint (mem s) (p + 4 + index * sizeofT) (Z.to_nat sizeofT)
    else Ok 0.
Proof.
  intros Hst Hp Hlen. unfold Object.valueAt. rewrite Hst. simpl.
  rewrite (typed_length_eq _ _ _ _ _ _ Hp Hlen). simpl.
  destruct (index <? len / sizeofT); [|done].
  unfold Object.data, ObjectBase.data. rewrite Hp. simpl.
  by rewrite (readValue_load _ _ _ _ Hst).
Qed.

Lemma element_in_range (sizeofT len index : Z) :
  0 < sizeofT -> 0 <= index < len / sizeofT ->
  index * sizeofT + sizeofT <= len.
Proof.
  intros Hs Hi.
  pose proof (Z.mul_div_le len sizeofT Hs).
  nia.
Qed.

Lemma valueAt_stored (sizeofT : Z) (cfg : Platform) (s : Machine)
    (this p len index : Z) (st : strategy) (B : list byte) :
  0 < sizeofT ->
  resolve_readValue sizeofT = Ok st ->
  ObjectBase.getObjectPtr cfg s this = Ok p ->
  ObjectBase.flashLength_ s p = Ok len ->
  load_bytes (mem s) (p + 4) (Z.to_nat len) = Some B ->
  0 <= index < len / sizeofT ->
  Object.valueAt sizeofT cfg s this index = Ok (element sizeofT B index).
Proof.
  intros Hs Hst Hp Hlen HB Hi.
  rewrite (valueAt_eq _ _ _ _ _ _ _ _ Hst Hp Hlen).
  destruct (Z.ltb_spec index (len / sizeofT)); [|lia].
  pose proof (element_in_range _ _ _ Hs Hi).
  unfold load_uint, element.
  rewrite (load_slice (mem s) (p + 4) len B (index * sizeofT) sizeofT)
    by (done || nia).
  done.
Qed.

(** Every typed operation starts by resolving the handle: where that
    fails, so do they. *)
Lemma valueAt_resolution_fails (sizeofT : Z) (cfg : Platform) (s : Machine)
    (this index : Z) (st : strategy) (e : error) :
  resolve_readValue sizeofT = Ok st ->
  ObjectBase.getObjectPtr cfg s this = Err e ->
  Object.length sizeofT cfg s this = Err e
  /\ Object.valueAt sizeofT cfg s this index = Err e.
Proof.
  intros Hst He.
  assert (Object.length sizeofT cfg s this = Err e) as Hlen.
  { unfold Object.length, ObjectBase.length. by rewrite He. }
  split; [done|]. unfold Object.valueAt. rewrite Hst. simpl. by rewrite Hlen.
Qed.

(** C5, as the code has it.  Take any handle whose field can be read
    (stored value [v]), an element size [readValue] accepts and any
    [unsigned] index.  On a debug build for the target (neither [ARCH_HOST]
    nor [NDEBUG]), a handle without copy tag, with a non-zero length field
    and an address outside flash fails the assertion in resolution, and
    [valueAt] aborts with it, for every index.  Every other handle resolves,
    to some [p]; with the length field [len] of [p] readable, [valueAt(index)]
    returns a value: the zero element when [index >= length()], and the
    element stored at [index] when [index < length()] and the object holds
    its bytes.  [operator[]] is [valueAt] for all indices. *)
Theorem valueAt_unless_resolution_aborts (sizeofT : Z) (cfg : Platform)
    (s : Machine) (this v index : Z) (st : strategy) :
  0 < sizeofT ->
  resolve_readValue sizeofT = Ok st ->
  ObjectBase.flashLength_ s this = Ok v ->
  0 <= index ->
  (ARCH_HOST cfg = false -> NDEBUG cfg = false -> 0 < v < 2 ^ 31 ->
   isFlashPtr cfg this = false ->
     ObjectBase.getObjectPtr cfg s this = Err AssertFailed
     /\ Object.length sizeofT cfg s this = Err AssertFailed
     /\ Object.valueAt sizeofT cfg s this index = Err AssertFailed)
  /\ (ARCH_HOST cfg = true \/ NDEBUG cfg = true \/ v = 0 \/ 2 ^ 31 <= v
      \/ isFlashPtr cfg this = true ->
        exists p : Z,
          ObjectBase.getObjectPtr cfg s this = Ok p
          /\ forall len : Z,
               ObjectBase.flashLength_ s p = Ok len ->
               Object.length sizeofT cfg s this = Ok (len / sizeofT)
               /\ (len / sizeofT <= index ->
                     Object.valueAt sizeofT cfg s this index = Ok 0)
               /\ (forall B : list byte,
                     index < len / sizeofT ->
                     load_bytes (mem s) (p + 4) (Z.to_nat len) = Some B ->
                     Object.valueAt sizeofT cfg s this index
                       = Ok (element sizeofT B index)))
  /\ Object.subscript sizeofT cfg s this index
       = Object.valueAt sizeofT cfg s this index.
Proof.
  intros Hs Hst Hv Hi.
  pose proof (flashLength_range _ _ _ Hv) as Hr.
  pose proof (getObjectPtr_eq cfg s this v Hv) as Hp.
  split; [|split; [|done]].
  - intros Hhost Hdebug Hlen Hflash.
    assert (ObjectBase.getObjectPtr cfg s this = Err AssertFailed) as He.
    { rewrite Hp, Hhost, Hdebug, Hflash. simpl.
      destruct (Z.leb_spec (2 ^ 31) v); [lia|].
      destruct (Z.eqb_spec v 0); [lia|done]. }
    split; [done|]. by apply valueAt_resolution_fails with st.
  - intros Hfine.
    assert (exists p : Z, ObjectBase.getObjectPtr cfg s this = Ok p)
      as [p Hp'].
    { rewrite Hp.
      destruct (Z.leb_spec (2 ^ 31) v); [by eexists|].
      destruct (Z.eqb_spec v 0); [by eexists|].
      destruct (ARCH_HOST cfg) eqn:Hhost; [by eexists|].
      destruct (isFlashPtr cfg this) eqn:Hflash; [by eexists|].
      destruct (NDEBUG cfg) eqn:Hdebug; [by eexists|].
      exfalso. destruct Hfine as [?|[?|[?|[?|?]]]]; done || lia. }
    exists p. split; [done|]. intros len Hlen.
    split; [by eapply typed_length_eq|]. split.
    + intros Hout. rewrite (valueAt_eq _ _ _ _ _ _ _ _ Hst Hp' Hlen).
      destruct (Z.ltb_spec index (len / sizeofT)); [lia|done].
    + intros B Hin HB. by eapply valueAt_stored.
Qed.

Lemma valueAt_unless_resolution_aborts_witness :
  0 < 4
  /\ resolve_readValue 4 = Ok Dereference
  /\ ObjectBase.flashLength_ image_duplicate duplicate = Ok 0xC0202000
  /\ ObjectBase.flashLength_ image_stray stray = Ok 20
  /\ Object.valueAt 4 (esp8266 false) image_duplicate duplicate 2 = Ok 30
  /\ Object.valueAt 4 (esp8266 false) image_duplicate duplicate 5 = Ok 0
  /\ Object.valueAt 4 (esp8266 true) image_stray stray 2 = Ok 0
  /\ Object.valueAt 4 (esp8266 false) image_stray stray 2 = Err AssertFailed.
Proof.
  assert (0 < 4) as Hs by lia.
  assert (resolve_readValue 4 = Ok Dereference) as Hst by reflexivity.
  assert (ObjectBase.flashLength_ image_duplicate duplicate = Ok 0xC0202000)
    as Hv by evaluate.
  assert (ObjectBase.flashLength_ image_stray stray = Ok 20)
    as Hv' by evaluate.
  assert (ObjectBase.flashLength_ image_duplicate numbers = Ok 20)
    as Hlen by evaluate.
  assert (ObjectBase.flashLength_ image_stray (empty_ (esp8266 true)) = Ok 0)
    as Hlen' by evaluate.
  assert (forall x y : Z, Ok x = Ok y -> x = y) as Hinj
    by (by intros x y [= ->]).
  split; [exact Hs|]. split; [exact Hst|]. split; [exact Hv|].
  split; [exact Hv'|]. split; [|split; [|split]].
  - destruct (valueAt_unless_resolution_aborts 4 (esp8266 false)
                image_duplicate duplicate _ 2 Dereference Hs Hst Hv)
      as (_ & Hfine & _); [lia|].
    destruct Hfine as (p & Hp & Hat); [right; right; right; left; lia|].
    assert (p = numbers) as ->.
    { apply Hinj. rewrite <- Hp. evaluate. }
    destruct (Hat 20 Hlen) as (_ & _ & Hin).
    apply (Hin numbers_data); [reflexivity|evaluate].
  - destruct (valueAt_unless_resolution_aborts 4 (esp8266 false)
                image_duplicate duplicate _ 5 Dereference Hs Hst Hv)
      as (_ & Hfine & _); [lia|].
    destruct Hfine as (p & Hp & Hat); [right; right; right; left; lia|].
    assert (p = numbers) as ->.
    { apply Hinj. rewrite <- Hp. evaluate. }
    destruct (Hat 20 Hlen) as (_ & Hout & _).
    apply Hout. by vm_compute.
  - destruct (valueAt_unless_resolution_aborts 4 (esp8266 true)
                image_stray stray _ 2 Dereference Hs Hst Hv')
      as (_ & Hfine & _); [lia|].
    destruct Hfine as (p & Hp & Hat); [right; left; reflexivity|].
    assert (p = empty_ (esp8266 true)) as ->.
    { apply Hinj. rewrite <- Hp. evaluate. }
    destruct (Hat 0 Hlen') as (_ & Hout & _).
    apply Hout. by vm_compute.
  - destruct (valueAt_unless_resolution_aborts 4 (esp8266 false)
                image_stray stray _ 2 Dereference Hs Hst Hv')
      as (Habort & _); [lia|].
    destruct Habort as (_ & _ & Hval); [reflexivity|reflexivity|lia
                                       |reflexivity|].
    exact Hval.
Defined.

(** C5 as stated fails: on a debug build for the target, [valueAt] on a
    handle in RAM that has no copy tag and a length field of 20 does not
    return: the assertion in resolution aborts, at an index past the length
    as at any other. *)
Lemma valueAt_aborts_on_stray_handle :
  ObjectBase.isCopy image_stray stray = Ok false
  /\ ObjectBase.flashLength_ image_stray stray = Ok 20
  /\ isFlashPtr (esp8266 false) stray = false
  /\ Object.valueAt 4 (esp8266 false) image_stray stray 0 = Err AssertFailed
  /\ Object.valueAt 4 (esp8266 false) image_stray stray 7 = Err AssertFailed
  /\ Object.valueAt 4 (esp8266 false) image_stray stray 7 <> Ok 0.
Proof. repeat split; vm_compute; congruence. Qed.

(** ** Linear search *)

Lemma to_int_small (i : Z) : 0 <= i < 2 ^ 31 -> to_int i = i.
Proof. intros H. unfold to_int. destruct (Z.ltb_spec i (2 ^ 31)); lia. Qed.

Lemma wrap32_small (i : Z) : 0 <= i < 2 ^ 32 -> wrap32 i = i.
Proof. intros H. unfold wrap32. apply Z.mod_small. lia. Qed.

(** The loop from index [i] on, over a sequence of [n] elements whose
    element at [j] is [elem j]: it ends with -1 when no element from [i] on
    compares equal to [value], and with the first index from [i] on whose
    element does otherwise. *)
Lemma indexOf_loop_first (sizeofT : Z) (cfg : Platform) (s : Machine)
    (this : Z) {ValueType : Type} (equals : Z -> ValueType -> bool)
    (value : ValueType) (elem : Z -> Z) (n : Z) (todo : nat) :
  forall i : Z,
    0 <= i -> i + Z.of_nat todo = n -> n < 2 ^ 31 ->
    (forall j : Z, 0 <= j < n ->
       Object.valueAt sizeofT cfg s this j = Ok (elem j)) ->
    (Object.indexOf_loop sizeofT cfg equals s this value todo i = Ok (-1)
     /\ forall j : Z, i <= j < n -> equals (elem j) value = false)
    \/ (exists k : Z,
          i <= k < n
          /\ Object.indexOf_loop sizeofT cfg equals s this value todo i = Ok k
          /\ equals (elem k) value = true
          /\ forall j : Z, i <= j < k -> equals (elem j) value = false).
Proof.
  induction todo as [|todo IH]; intros i Hi Hn Hlt Hval; simpl.
  - left. split; [done|]. intros j Hj. lia.
  - rewrite Hval by lia. simpl.
    destruct (equals (elem i) value) eqn:Heq.
    + right. exists i. rewrite to_int_small by lia.
      repeat split; try done; lia.
    + rewrite wrap32_small by lia.
      destruct (IH (i + 1)) as [[Hr Hall]|(k & Hk & Hr & Hek & Hall)];
        try done; try lia.
      * left. split; [done|]. intros j Hj.
        destruct (Z.eq_dec j i) as [->|]; [done|]. apply Hall. lia.
      * right. exists k. repeat split; try done; try lia.
        intros j Hj. destruct (Z.eq_dec j i) as [->|]; [done|].
        apply Hall. lia.
Qed.

(** What [indexOf] answers, for a sequence held at a canonical resolved
    handle, in terms of the elements stored. *)
Lemma indexOf_answer (sizeofT : Z) (cfg : Platform) (s : Machine)
    (this p : Z) (B : list byte) (st : strategy) {ValueType : Type}
    (equals : Z -> ValueType -> bool) (value : ValueType) :
  0 < sizeofT ->
  resolve_readValue sizeofT = Ok st ->
  ObjectBase.getObjectPtr cfg s this = Ok p ->
  holds s p B ->
  Z.of_nat (length B) < 2 ^ 31 ->
  let n := Z.of_nat (length B) / sizeofT in
  Object.length sizeofT cfg s this = Ok n
  /\ (forall j : Z, 0 <= j < n ->
        Object.valueAt sizeofT cfg s this j = Ok (element sizeofT B j))
  /\ ((Object.indexOf sizeofT cfg equals s this value = Ok (-1)
       /\ forall j : Z, 0 <= j < n ->
            equals (element sizeofT B j) value = false)
      \/ exists k : Z,
           0 <= k < n
           /\ Object.indexOf sizeofT cfg equals s this value = Ok k
           /\ equals (element sizeofT B k) value = true
           /\ forall j : Z, 0 <= j < k ->
                equals (element sizeofT B j) value = false).
Proof.
  intros Hs Hst Hp [Hlen HB] Htag n.
  set (len := Z.of_nat (length B)) in *.
  assert (Object.length sizeofT cfg s this = Ok n) as Hn
    by (by eapply typed_length_eq).
  assert (0 <= n < 2 ^ 31) as Hnr.
  { unfold n. split; [apply Z.div_pos; lia|].
    apply Z.le_lt_trans with len; [|done].
    apply Z.div_le_upper_bound; nia. }
  assert (forall j : Z, 0 <= j < n ->
            Object.valueAt sizeofT cfg s this j
            = Ok (element sizeofT B j)) as Hval.
  { intros j Hj. eapply valueAt_stored; eauto.
    unfold len. by rewrite Nat2Z.id. }
  split; [exact Hn|]. split; [exact Hval|].
  unfold Object.indexOf. rewrite Hn. simpl.
  destruct (indexOf_loop_first sizeofT cfg s this equals value
              (element sizeofT B) n (Z.to_nat n) 0)
    as [[Hr Hall]|(k & Hk & Hr & Hek & Hall)]; try done; try lia.
  - left. split; [done|]. intros j Hj. apply Hall. lia.
  - right. exists k. repeat split; done || lia.
Qed.

(** C8.  For a typed sequence of [n] elements held at the resolved handle
    (a canonical one, so its length field carries no tag) and any value,
    whatever [==] is between an element and the value: [indexOf] returns -1
    when no index below [n] has a [valueAt] that compares equal to the value,
    in particular when the sequence is empty, and otherwise the smallest
    index whose [valueAt] compares equal to the value; it always returns one
    of the two.  Where [==] is equality of integers of the element type, this
    reads: -1 when no [valueAt] is the value, else the smallest index whose
    [valueAt] is the value. *)
Theorem indexOf_first_match (sizeofT : Z) (cfg : Platform) (s : Machine)
    (this p : Z) (B : list byte) (st : strategy) {ValueType : Type}
    (equals : Z -> ValueType -> bool) (value : ValueType) :
  0 < sizeofT ->
  resolve_readValue sizeofT = Ok st ->
  ObjectBase.getObjectPtr cfg s this = Ok p ->
  holds s p B ->
  Z.of_nat (length B) < 2 ^ 31 ->
  let n := Z.of_nat (length B) / sizeofT in
  Object.length sizeofT cfg s this = Ok n
  /\ ((forall i v : Z, 0 <= i < n ->
         Object.valueAt sizeofT cfg s this i = Ok v ->
         equals v value = false) ->
      Object.indexOf sizeofT cfg equals s this value = Ok (-1))
  /\ (forall i v : Z, 0 <= i < n ->
        Object.valueAt sizeofT cfg s this i = Ok v ->
        equals v value = true ->
        (forall j w : Z, 0 <= j < i ->
           Object.valueAt sizeofT cfg s this j = Ok w ->
           equals w value = false) ->
        Object.indexOf sizeofT cfg equals s this value = Ok i)
  /\ (n = 0 -> Object.indexOf sizeofT cfg equals s this value = Ok (-1))
  /\ (Object.indexOf sizeofT cfg equals s this value = Ok (-1)
      \/ exists i : Z,
           0 <= i < n
           /\ Object.indexOf sizeofT cfg equals s this value = Ok i)
  /\ forall x : Z,
       ((forall i : Z, 0 <= i < n ->
           Object.valueAt sizeofT cfg s this i <> Ok x) ->
        Object.indexOf sizeofT cfg Z.eqb s this x = Ok (-1))
       /\ (forall i : Z, 0 <= i < n ->
             Object.valueAt sizeofT cfg s this i = Ok x ->
             (forall j : Z, 0 <= j < i ->
                Object.valueAt sizeofT cfg s this j <> Ok x) ->
             Object.indexOf sizeofT cfg Z.eqb s this x = Ok i).
Proof.
  intros Hs Hst Hp Hh Htag n.
  assert (forall (V : Type) (eqv : Z -> V -> bool) (y : V),
            ((forall i v : Z, 0 <= i < n ->
                Object.valueAt sizeofT cfg s this i = Ok v ->
                eqv v y = false) ->
             Object.indexOf sizeofT cfg eqv s this y = Ok (-1))
            /\ (forall i v : Z, 0 <= i < n ->
                  Object.valueAt sizeofT cfg s this i = Ok v ->
                  eqv v y = true ->
                  (forall j w : Z, 0 <= j < i ->
                     Object.valueAt sizeofT cfg s this j = Ok w ->
                     eqv w y = false) ->
                  Object.indexOf sizeofT cfg eqv s this y = Ok i)
            /\ (Object.indexOf sizeofT cfg eqv s this y = Ok (-1)
                \/ exists i : Z,
                     0 <= i < n
                     /\ Object.indexOf sizeofT cfg eqv s this y = Ok i))
    as Hgen.
  { intros V eqv y.
    destruct (indexOf_answer sizeofT cfg s this p B st eqv y Hs Hst Hp Hh
                Htag)
      as (_ & Hval & [[Hr Hall]|(k & Hk & Hr & Hek & Hall)]);
      fold n in Hval, Hall.
    - (* no element compares equal *)
      rewrite Hr. split; [done|]. split; [|by left].
      intros i v Hi Hvi Heq _. rewrite Hval in Hvi by done.
      injection Hvi as <-. rewrite Hall in Heq by lia. done.
    - (* the first element that compares equal is at k *)
      rewrite Hr. split; [|split].
      + intros Hnone. exfalso.
        specialize (Hnone k _ ltac:(lia) (Hval k ltac:(lia))).
        by rewrite Hek in Hnone.
      + intros i v Hi Hvi Heq Hbefore. f_equal.
        rewrite Hval in Hvi by done. injection Hvi as <-.
        destruct (Z.lt_trichotomy i k) as [Hik|[Hik|Hik]]; [|done|].
        * exfalso. rewrite Hall in Heq by lia. done.
        * exfalso.
          specialize (Hbefore k _ ltac:(lia) (Hval k ltac:(lia))).
          by rewrite Hek in Hbefore.
      + right. exists k. split; [lia|done]. }
  destruct (indexOf_answer sizeofT cfg s this p B st equals value Hs Hst Hp
              Hh Htag) as (Hn & Hval & _); fold n in Hn, Hval.
  destruct (Hgen ValueType equals value) as (Hnone & Hfirst & Hone).
  split; [exact Hn|]. split; [exact Hnone|]. split; [exact Hfirst|].
  split.
  { intros Hn0. apply Hnone. intros i v Hi. lia. }
  split; [exact Hone|].
  intros x. destruct (Hgen Z Z.eqb x) as (Hnone' & Hfirst' & _). split.
  - intros Hno. apply Hnone'. intros i v Hi Hvi.
    apply Z.eqb_neq. intros ->. by apply (Hno i).
  - intros i Hi Hvi Hbefore. apply (Hfirst' i x Hi Hvi (Z.eqb_refl x)).
    intros j w Hj Hvj. apply Z.eqb_neq. intros ->. by apply (Hbefore j).
Qed.

Lemma indexOf_first_match_witness :
  0 < 4
  /\ resolve_readValue 4 = Ok Dereference
  /\ ObjectBase.getObjectPtr (esp8266 true) image numbers = Ok numbers
  /\ holds image numbers numbers_data
  /\ Z.of_nat (length numbers_data) < 2 ^ 31
  /\ Object.indexOf 4 (esp8266 true) Z.eqb image numbers 40 = Ok 3
  /\ Object.indexOf 4 (esp8266 true) Z.eqb image numbers 99 = Ok (-1).
Proof.
  assert (0 < 4) as Hs by lia.
  assert (resolve_readValue 4 = Ok Dereference) as Hst by reflexivity.
  assert (ObjectBase.getObjectPtr (esp8266 true) image numbers = Ok numbers)
    as Hp by (vm_compute; reflexivity).
  assert (holds image numbers numbers_data) as Hh
    by (split; vm_compute; reflexivity).
  assert (Z.of_nat (length numbers_data) < 2 ^ 31) as Htag by (simpl; lia).
  assert (forall i : Z, 0 <= i < 5 ->
            i = 0 \/ i = 1 \/ i = 2 \/ i = 3 \/ i = 4) as Hcases
    by (intros; lia).
  split; [exact Hs|]. split; [exact Hst|]. split; [exact Hp|].
  split; [exact Hh|]. split; [exact Htag|]. split.
  - destruct (indexOf_first_match 4 (esp8266 true) image numbers numbers
                numbers_data Dereference Z.eqb 40 Hs Hst Hp Hh Htag)
      as (_ & _ & _ & _ & _ & Hsame).
    destruct (Hsame 40) as [_ Hfound].
    apply Hfound; [vm_compute; split; [discriminate|reflexivity]
                  |vm_compute; reflexivity|].
    intros j Hj.
    assert (j = 0 \/ j = 1 \/ j = 2) as [->|[->| ->]] by lia;
      vm_compute; discriminate.
  - destruct (indexOf_first_match 4 (esp8266 true) image numbers numbers
                numbers_data Dereference Z.eqb 99 Hs Hst Hp Hh Htag)
      as (_ & _ & _ & _ & _ & Hsame).
    destruct (Hsame 99) as [Hnone _].
    apply Hnone. intros i Hi.
    destruct (Hcases i) as [->|[->|[->|[->| ->]]]];
      [exact Hi|..]; vm_compute; discriminate.
Defined.

(** ** Reading elements *)

(** Where neither product wraps, and the byte length is a whole number of
    elements, the element read is the byte read scaled: nothing is read at or
    past [length()], and a read that runs past the end returns the
    [length() - index] elements that are left. *)
Lemma typed_read_without_wrap (sizeofT : Z) (cfg : Platform) (s : Machine)
    (this p len index count : Z) (buffer : list byte) :
  0 < sizeofT ->
  ObjectBase.getObjectPtr cfg s this = Ok p ->
  ObjectBase.flashLength_ s p = Ok len ->
  len mod sizeofT = 0 ->
  0 <= index -> 0 <= count ->
  index * sizeofT < 2 ^ 32 -> count * sizeofT < 2 ^ 32 ->
  (len / sizeofT <= index ->
     Object.read sizeofT cfg s this index buffer count = Ok (buffer, 0))
  /\ (forall B : list byte,
        index < len / sizeofT -> len / sizeofT < index + count ->
        load_bytes (mem s) (p + 4) (Z.to_nat len) = Some B ->
        len - index * sizeofT <= Z.of_nat (length buffer) ->
        Object.read sizeofT cfg s this index buffer count
          = Ok (drop (Z.to_nat (index * sizeofT)) B
                  ++ drop (Z.to_nat (len - index * sizeofT)) buffer,
                len / sizeofT - index)).
Proof.
  intros Hs Hp Hlen Hmod Hi Hc Hiw Hcw.
  pose proof (flashLength_range _ _ _ Hlen) as Hl.
  assert (len = sizeofT * (len / sizeofT)) as Hexact.
  { rewrite (Z.div_mod len sizeofT) at 1 by lia. lia. }
  unfold Object.read.
  rewrite (read_at_resolved _ _ _ _ _ _ _ Hp).
  rewrite !wrap32_small by nia.
  split.
  - intros Hpast.
    unfold FlashString.read, FlashString.flashLength.
    unfold ObjectBase.flashLength_ in Hlen. rewrite Hlen. simpl.
    destruct (Z.leb_spec len (index * sizeofT)); [|nia].
    simpl. by rewrite Z.div_0_l by lia.
  - intros B Hin Hover HB Hroom.
    pose proof (load_bytes_length _ _ _ _ HB) as HlB.
    rewrite (cached_read s p len (index * sizeofT) (count * sizeofT) buffer B)
      by (done || nia).
    simpl.
    replace (Z.min (count * sizeofT) (len - index * sizeofT))
      with (len - index * sizeofT) by nia.
    rewrite take_ge by (rewrite length_drop; lia).
    do 2 f_equal.
    replace (len - index * sizeofT) with (len + - index * sizeofT) by lia.
    rewrite Z.div_add by lia. lia.
Qed.

(** C6 at a failing input.  On the array of the five 32-bit numbers,
    [read(0x40000000, buffer, 1)] is a read at an index past [length()], yet
    it returns 1 and copies the element at index 0: the byte offset
    [0x40000000 * 4] wraps to 0 in [size_t].  [readFlash] does the same, and
    [read(0, buffer, 0x40000000)], which asks for more than is left, returns
    0 rather than 5 because the byte count wraps to 0. *)
Theorem typed_read_index_wraps :
  Object.length 4 (esp8266 true) image numbers = Ok 5
  /\ wrap32 (0x40000000 * 4) = 0
  /\ Object.read 4 (esp8266 true) image numbers 0x40000000
       (replicate 4 Byte.xff) 1
     = Ok (le_split 4 10, 1)
  /\ Object.readFlash 4 (esp8266 true) image numbers 0x40000000
       (replicate 4 Byte.xff) 1
     = Ok (le_split 4 10, 1)
  /\ Object.read 4 (esp8266 true) image numbers 0
       (replicate 20 Byte.xff) 0x40000000
     = Ok (replicate 20 Byte.xff, 0).
Proof. repeat split; vm_compute; reflexivity. Qed.

(** ** Iterators *)

(** C9.  [begin()] is the iterator on this sequence at position 0 and
    [end()] the one on this sequence at position [length()]; two iterators
    compare equal iff they reference the same sequence at the same position;
    so on a sequence of length 0, [begin() == end()]. *)
Theorem begin_end_positions (sizeofT : Z) (cfg : Platform) (s : Machine)
    (this : Z) :
  Object.it_object (Object.begin this) = this
  /\ Object.it_position (Object.begin this) = 0
  /\ (forall n : Z, Object.length sizeofT cfg s this = Ok n ->
        exists e : Object.Iterator,
          Object.end_ sizeofT cfg s this = Ok e
          /\ Object.it_object e = this /\ Object.it_position e = n)
  /\ (forall a b : Object.Iterator,
        Object.Iterator_eq a b = true
        <-> Object.it_object a = Object.it_object b
            /\ Object.it_position a = Object.it_position b)
  /\ (Object.length sizeofT cfg s this = Ok 0 ->
        exists e : Object.Iterator,
          Object.end_ sizeofT cfg s this = Ok e
          /\ Object.Iterator_eq (Object.begin this) e = true).
Proof.
  split; [done|]. split; [done|]. split.
  { intros n Hn. unfold Object.end_. rewrite Hn. simpl. by eexists. }
  split.
  { intros a b. unfold Object.Iterator_eq.
    rewrite andb_true_iff, !Z.eqb_eq. done. }
  intros Hn. unfold Object.end_. rewrite Hn. simpl. eexists. split; [done|].
  unfold Object.Iterator_eq, Object.begin. simpl. by rewrite !Z.eqb_refl.
Qed.

Lemma begin_end_positions_witness :
  Object.length 4 (esp8266 false) image (empty_ (esp8266 false)) = Ok 0
  /\ exists e : Object.Iterator,
       Object.end_ 4 (esp8266 false) image (empty_ (esp8266 false)) = Ok e
       /\ Object.Iterator_eq (Object.begin (empty_ (esp8266 false))) e = true.
Proof.
  assert (Object.length 4 (esp8266 false) image (empty_ (esp8266 false))
          = Ok 0) as Hn by (vm_compute; reflexivity).
  split; [exact Hn|].
  destruct (begin_end_positions 4 (esp8266 false) image
              (empty_ (esp8266 false))) as (_ & _ & _ & _ & Hempty).
  exact (Hempty Hn).
Defined.

(** ** The size of a FlashString *)

Lemma land_wrap32 (x y : Z) :
  0 <= x < 2 ^ 32 -> Z.land x (wrap32 y) = Z.land x y.
Proof.
  intros Hx. unfold wrap32. rewrite <- Z.land_ones by lia.
  rewrite (Z.land_comm y), Z.land_assoc, Z.land_ones by lia.
  by rewrite Z.mod_small by lia.
Qed.

Lemma ALIGNUP_eq (n : Z) :
  0 <= n -> n + 3 < 2 ^ 32 -> ALIGNUP n = 4 * ((n + 3) / 4).
Proof.
  intros Hn Hlt. unfold ALIGNUP.
  rewrite (wrap32_small (n + 3)) by lia.
  rewrite land_wrap32 by lia.
  rewrite <- Z.ldiff_land. change 3 with (Z.ones 2) at 2.
  rewrite Z.ldiff_ones_r by lia.
  rewrite Z.shiftr_div_pow2, Z.shiftl_mul_pow2 by lia.
  change (2 ^ 2) with 4.
  pose proof (Z.mul_div_le (n + 3) 4).
  pose proof (Z.div_pos (n + 3) 4).
  rewrite wrap32_small by lia. lia.
Qed.

Lemma ALIGNUP_least (n : Z) :
  0 <= n -> n + 3 < 2 ^ 32 ->
  ALIGNUP n mod 4 = 0
  /\ n <= ALIGNUP n < n + 4
  /\ forall k : Z, k mod 4 = 0 -> n <= k -> ALIGNUP n <= k.
Proof.
  intros Hn Hlt. rewrite ALIGNUP_eq by done.
  pose proof (Z.div_mod (n + 3) 4).
  pose proof (Z.mod_pos_bound (n + 3) 4).
  split; [|split].
  - rewrite Z.mul_comm. apply Z.mod_mul. lia.
  - lia.
  - intros k Hk Hle. pose proof (Z.div_mod k 4).
    assert ((n + 3) / 4 <= k / 4); [|lia].
    apply Z.div_le_lower_bound; lia.
Qed.

(** C10, as the code has it.  For a FlashString whose length is at most
    0xFFFFFFFB (so that rounding [length() + 1] up does not wrap), [size()]
    is [ALIGNUP(length() + 1)], the least multiple of 4 that is at least
    [length() + 1]; it exceeds [length()], and [ALIGNUP(length())] fits too.
    So [LOAD_FSTR] on a FlashString holding the bytes [B] runs through: its
    array of [size()] bytes ends up with [B], then the terminator at index
    [length()], then what was there before. *)
Theorem size_rounds_up (s : Machine) (this n : Z) :
  FlashString.length s this = Ok n ->
  n <= 0xFFFFFFFB ->
  exists sz : Z,
    FlashString.size s this = Ok sz
    /\ sz = ALIGNUP (n + 1)
    /\ sz mod 4 = 0
    /\ n + 1 <= sz < n + 5
    /\ (forall k : Z, k mod 4 = 0 -> n + 1 <= k -> sz <= k)
    /\ ALIGNUP n <= sz
    /\ forall (junk : nat -> byte) (B : list byte),
         load_bytes (mem s) (this + 4) (Z.to_nat n) = Some B ->
         FlashString.LOAD_FSTR s junk this
           = Ok (B ++ Byte.x00
                   :: drop (S (Z.to_nat n)) (junk <$> seq 0 (Z.to_nat sz)))
         /\ Z.of_nat (length (B ++ Byte.x00
                   :: drop (S (Z.to_nat n)) (junk <$> seq 0 (Z.to_nat sz))))
            = sz.
Proof.
  intros Hlen Hmax.
  pose proof (flashLength_range _ _ _ Hlen) as Hn.
  destruct (ALIGNUP_least (n + 1)) as (Hmod & Hrange & Hleast); [lia..|].
  destruct (ALIGNUP_least n) as (_ & Hrange0 & Hleast0); [lia..|].
  exists (ALIGNUP (n + 1)).
  assert (FlashString.size s this = Ok (ALIGNUP (n + 1))) as Hsz.
  { unfold FlashString.size. unfold FlashString.length in Hlen.
    rewrite Hlen. simpl. by rewrite (wrap32_small (n + 1)) by lia. }
  split; [exact Hsz|]. split; [done|]. split; [done|].
  split; [lia|]. split; [done|].
  split. { apply Hleast0; [done|lia]. }
  intros junk B HB.
  pose proof (load_bytes_length _ _ _ _ HB) as HlB.
  set (sz := ALIGNUP (n + 1)) in *.
  set (name := junk <$> seq 0 (Z.to_nat sz)).
  assert (length name = Z.to_nat sz) as Hname
    by (unfold name; by rewrite length_fmap, length_seq).
  split.
  - unfold FlashString.LOAD_FSTR. rewrite Hsz. simpl. rewrite Hlen. simpl.
    unfold memcpy_P, FlashString.data. rewrite HB. simpl.
    fold name. rewrite memcpy_ok by lia. simpl.
    unfold FlashString.array_store.
    rewrite length_app, length_drop, HlB.
    destruct (Z.leb_spec 0 n); [|lia].
    destruct (Z.ltb_spec n (Z.of_nat (Z.to_nat n + (length name - Z.to_nat n))));
      [|lia].
    simpl. f_equal.
    rewrite insert_app_r_alt by lia.
    rewrite HlB, Nat.sub_diag.
    destruct (drop (Z.to_nat n) name) as [|x rest] eqn:Hdrop.
    { apply (f_equal length) in Hdrop. rewrite length_drop in Hdrop.
      simpl in Hdrop. lia. }
    simpl. do 2 f_equal.
    change rest with (drop 1 (x :: rest)).
    by rewrite <- Hdrop, drop_drop, Nat.add_1_r.
  - rewrite length_app, length_cons, length_drop, HlB, Hname. lia.
Qed.

Lemma size_rounds_up_witness :
  FlashString.length image hello = Ok 5
  /\ 5 <= 0xFFFFFFFB
  /\ FlashString.size image hello = Ok 8
  /\ FlashString.LOAD_FSTR image (fun _ => Byte.xff) hello
     = Ok (hello_data ++ [Byte.x00; Byte.xff; Byte.xff]).
Proof.
  assert (FlashString.length image hello = Ok 5) as Hlen
    by (vm_compute; reflexivity).
  assert (5 <= 0xFFFFFFFB) as Hmax by lia.
  split; [exact Hlen|]. split; [exact Hmax|].
  destruct (size_rounds_up image hello 5 Hlen Hmax)
    as (sz & Hsz & -> & _ & _ & _ & _ & Hload).
  split; [exact Hsz|].
  destruct (Hload (fun _ => Byte.xff) hello_data) as [Hrun _];
    [vm_compute; reflexivity|].
  exact Hrun.
Defined.

(** C10 as stated fails: for the length 0xFFFFFFFC, [length() + 1] does
    not overflow, yet [size()] is 0, which has no room for anything. *)
Lemma size_wraps_to_zero :
  FlashString.length image_huge huge = Ok 0xFFFFFFFC
  /\ 0xFFFFFFFC + 1 < 2 ^ 32
  /\ FlashString.size image_huge huge = Ok 0
  /\ ~ (0xFFFFFFFC + 1 <= 0).
Proof. repeat split; try (vm_compute; reflexivity). lia. Qed.

(** ** The examples of the specification, on the program image *)

Example numbers_example :
  Object.length 4 (esp8266 true) image numbers = Ok 5
  /\ Object.valueAt 4 (esp8266 true) image numbers 2 = Ok 30
  /\ Object.indexOf 4 (esp8266 true) Z.eqb image numbers 40 = Ok 3
  /\ Object.indexOf 4 (esp8266 true) Z.eqb image numbers 99 = Ok (-1)
  /\ Object.read 4 (esp8266 true) image numbers 3 (replicate 8 Byte.xff) 10
     = Ok (le_split 4 40 ++ le_split 4 50, 2).
Proof. repeat split; evaluate. Qed.

Example empty_example :
  Object.length 4 (esp8266 false) image (empty_ (esp8266 false)) = Ok 0
  /\ Object.data (esp8266 false) image (empty_ (esp8266 false))
     = Ok (empty_ (esp8266 false) + 4)
  /\ Object.valueAt 4 (esp8266 false) image (empty_ (esp8266 false)) 0 = Ok 0
  /\ Object.indexOf 4 (esp8266 false) Z.eqb image (empty_ (esp8266 false)) 0
     = Ok (-1)
  /\ Object.read 4 (esp8266 false) image (empty_ (esp8266 false)) 0
       (replicate 8 Byte.xff) 2
     = Ok (replicate 8 Byte.xff, 0).
Proof. repeat split; evaluate. Qed.

(** * Further properties *)

(** ** Structures placed in flash *)

Lemma load_bytes_app_inv (m : Memory) (a : Z) (l1 l2 : list byte) :
  load_bytes m a (length (l1 ++ l2)) = Some (l1 ++ l2) ->
  load_bytes m a (length l1) = Some l1
  /\ load_bytes m (a + Z.of_nat (length l1)) (length l2) = Some l2.
Proof.
  intros H. split.
  - rewrite (load_bytes_take m (length l1) _ _ _ H)
      by (rewrite length_app; lia).
    by rewrite take_app_length.
  - rewrite (load_bytes_sub m (length l1) _ (length l2) _ _ H)
      by (rewrite length_app; lia).
    by rewrite drop_app_length, firstn_all.
Qed.

Lemma load_uint_le_split (m : Memory) (a v : Z) :
  0 <= v < 2 ^ 32 ->
  load_bytes m a 4 = Some (le_split 4 v) ->
  load_uint m a 4 = Ok v.
Proof.
  intros Hv H. unfold load_uint. rewrite H. simpl.
  change (Z.lor _ _) with (le_combine (le_split 4 v)).
  rewrite le_combine_split. f_equal. apply Z.mod_small. simpl. lia.
Qed.

Lemma sizeof_literal_eq (str : list byte) :
  Z.of_nat (length str) + 4 < 2 ^ 32 ->
  sizeof_literal str = Z.of_nat (length str) + 1.
Proof. intros H. unfold sizeof_literal. apply wrap32_small. lia. Qed.

(** What a structure made by [DEFINE_FSTR_DATA] and placed at [a] gives:
    the length field and the array with the literal and its NUL. *)
Lemma DEFINE_FSTR_DATA_placed (m : Memory) (a : Z) (str : list byte) :
  Z.of_nat (length str) + 4 < 2 ^ 32 ->
  load_bytes m a (length (DEFINE_FSTR_DATA str))
    = Some (DEFINE_FSTR_DATA str) ->
  load_uint m a 4 = Ok (Z.of_nat (length str))
  /\ load_bytes m (a + 4) (length str) = Some str
  /\ load_bytes m (a + 4) (S (length str)) = Some (str ++ [Byte.x00])
  /\ Z.of_nat (length (DEFINE_FSTR_DATA str))
     = 4 + ALIGNUP (Z.of_nat (length str) + 1).
Proof.
  intros Hlen H. unfold DEFINE_FSTR_DATA in *.
  rewrite sizeof_literal_eq in * by done.
  replace (Z.of_nat (length str) + 1 - 1) with (Z.of_nat (length str)) in *
    by lia.
  rewrite (wrap32_small (Z.of_nat (length str))) in * by lia.
  destruct (ALIGNUP_least (Z.of_nat (length str) + 1)) as (_ & Hr & _);
    [lia..|].
  set (arr := ALIGNUP (Z.of_nat (length str) + 1)) in *.
  apply load_bytes_app_inv in H as [Hfield Hdata].
  rewrite length_le_split in Hfield, Hdata.
  rewrite length_resize in Hdata. change (Z.of_nat 4) with 4 in Hdata.
  assert (forall k : nat, (k <= S (length str))%nat ->
            load_bytes m (a + 4) k = Some (take k (str ++ [Byte.x00])))
    as Hpre.
  { intros k Hk.
    rewrite (load_bytes_take m k _ _ _ Hdata) by lia.
    rewrite take_resize_le by lia.
    rewrite resize_le; [done|]. rewrite length_app. simpl. lia. }
  split; [|split; [|split]].
  - apply load_uint_le_split; [lia|done].
  - rewrite Hpre by lia. by rewrite take_app_length.
  - rewrite Hpre by lia. rewrite firstn_all2; [done|].
    rewrite length_app. simpl. lia.
  - rewrite length_app, length_le_split, length_resize. lia.
Qed.

(** X1.  A FlashString defined by [DEFINE_FSTR_DATA] from a string literal
    and placed at [a]: the structure takes [4 + ALIGNUP(sizeof(str))] bytes;
    [length()] is the number of characters without the NUL, [size()] is the
    size of the data array, the data holds the characters followed by the
    NUL, and reading [length()] bytes from offset 0 returns the
    characters. *)
Theorem DEFINE_FSTR_DATA_round_trip (s : Machine) (a : Z)
    (str buffer : list byte) :
  Z.of_nat (length str) + 4 < 2 ^ 32 ->
  load_bytes (mem s) a (length (DEFINE_FSTR_DATA str))
    = Some (DEFINE_FSTR_DATA str) ->
  length buffer = length str ->
  Z.of_nat (length (DEFINE_FSTR_DATA str))
    = 4 + ALIGNUP (Z.of_nat (length str) + 1)
  /\ FlashString.length s a = Ok (Z.of_nat (length str))
  /\ FlashString.size s a = Ok (ALIGNUP (sizeof_literal str))
  /\ load_bytes (mem s) (FlashString.data a) (S (length str))
     = Some (str ++ [Byte.x00])
  /\ FlashString.read s a 0 buffer (Z.of_nat (length str))
     = Ok (str, Z.of_nat (length str)).
Proof.
  intros Hlen Hplaced Hbuf.
  destruct (DEFINE_FSTR_DATA_placed _ _ _ Hlen Hplaced)
    as (Hfield & Hdata & Hnul & Hsize).
  set (len := Z.of_nat (length str)) in *.
  split; [done|]. split; [done|]. split; [|split; [done|]].
  - unfold FlashString.size, FlashString.flashLength. rewrite Hfield. simpl.
    by rewrite sizeof_literal_eq, (wrap32_small (len + 1)) by lia.
  - destruct (Z.eq_dec len 0) as [E|E].
    + unfold FlashString.read, FlashString.flashLength.
      rewrite Hfield, E. simpl.
      destruct str; [|simpl in *; lia]. by destruct buffer.
    + rewrite (cached_read s a len 0 len buffer str); try done; try lia.
      * replace (Z.min len (len - 0)) with len by lia.
        unfold len. rewrite Nat2Z.id. simpl. rewrite drop_0.
        rewrite firstn_all, drop_ge by lia. by rewrite app_nil_r.
      * unfold len. by rewrite Nat2Z.id.
Qed.

Lemma DEFINE_FSTR_DATA_round_trip_witness :
  Z.of_nat (length hello_data) + 4 < 2 ^ 32
  /\ load_bytes (mem image) hello (length (DEFINE_FSTR_DATA hello_data))
     = Some (DEFINE_FSTR_DATA hello_data)
  /\ FlashString.size image hello = Ok 8
  /\ FlashString.read image hello 0 (replicate 5 Byte.xff) 5
     = Ok (hello_data, 5).
Proof.
  assert (Z.of_nat (length hello_data) + 4 < 2 ^ 32) as Hlen by (simpl; lia).
  assert (load_bytes (mem image) hello (length (DEFINE_FSTR_DATA hello_data))
          = Some (DEFINE_FSTR_DATA hello_data)) as Hplaced by evaluate.
  split; [exact Hlen|]. split; [exact Hplaced|].
  destruct (DEFINE_FSTR_DATA_round_trip image hello hello_data
              (replicate 5 Byte.xff) Hlen Hplaced eq_refl)
    as (_ & _ & Hsize & _ & Hread).
  split; [exact Hsize|exact Hread].
Defined.

(** [LOAD_FSTR] on a FlashString of [n] characters [B], where rounding
    [n + 1] up does not wrap: the array of [size()] bytes receives the
    characters and the NUL at index [n]. *)
Lemma LOAD_FSTR_runs (s : Machine) (junk : nat -> byte) (this n : Z)
    (B : list byte) :
  FlashString.flashLength s this = Ok n ->
  n <= 0xFFFFFFFB ->
  load_bytes (mem s) (this + 4) (Z.to_nat n) = Some B ->
  FlashString.LOAD_FSTR s junk this
    = Ok (B ++ Byte.x00
            :: drop (S (Z.to_nat n))
                 (junk <$> seq 0 (Z.to_nat (ALIGNUP (n + 1))))).
Proof.
  intros Hlen Hmax HB.
  pose proof (flashLength_range _ _ _ Hlen) as Hn.
  destruct (ALIGNUP_least (n + 1)) as (_ & Hrange & _); [lia..|].
  pose proof (load_bytes_length _ _ _ _ HB) as HlB.
  unfold FlashString.LOAD_FSTR, FlashString.size, FlashString.length.
  rewrite Hlen. simpl. rewrite (wrap32_small (n + 1)) by lia.
  set (name := junk <$> seq 0 (Z.to_nat (ALIGNUP (n + 1)))).
  assert (length name = Z.to_nat (ALIGNUP (n + 1))) as Hname
    by (unfold name; by rewrite length_fmap, length_seq).
  unfold memcpy_P, FlashString.data. rewrite HB. simpl.
  rewrite memcpy_ok by lia. simpl.
  unfold FlashString.array_store.
  rewrite length_app, length_drop, HlB.
  destruct (Z.leb_spec 0 n); [|lia].
  destruct (Z.ltb_spec n (Z.of_nat (Z.to_nat n + (length name - Z.to_nat n))));
    [|lia].
  simpl. f_equal.
  rewrite insert_app_r_alt by lia.
  rewrite HlB, Nat.sub_diag.
  destruct (drop (Z.to_nat n) name) as [|x rest] eqn:Hdrop.
  { apply (f_equal length) in Hdrop. rewrite length_drop in Hdrop.
    simpl in Hdrop. lia. }
  simpl. do 2 f_equal.
  change rest with (drop 1 (x :: rest)).
  by rewrite <- Hdrop, drop_drop, Nat.add_1_r.
Qed.

(** X2.  [FSTR_ARRAY(name, str)] runs through and gives a stack array of
    [ALIGNUP(sizeof(str))] bytes that starts with the characters of the
    literal followed by the NUL, as [char name[] = str] would, wherever the
    linker puts the structure and whatever the stack held before. *)
Theorem FSTR_ARRAY_is_the_literal (s : Machine) (a : Z) (junk : nat -> byte)
    (str : list byte) :
  Z.of_nat (length str) + 4 < 2 ^ 32 ->
  exists name : list byte,
    FSTR_ARRAY s a junk str = Ok name
    /\ take (S (length str)) name = str ++ [Byte.x00]
    /\ Z.of_nat (length name) = ALIGNUP (sizeof_literal str).
Proof.
  intros Hlen. unfold FSTR_ARRAY.
  set (s' := {| mem := store_bytes (mem s) a (DEFINE_FSTR_DATA str);
                flash := flash s |}).
  assert (load_bytes (mem s') a (length (DEFINE_FSTR_DATA str))
          = Some (DEFINE_FSTR_DATA str)) as Hplaced
    by apply load_bytes_store_bytes_same.
  destruct (DEFINE_FSTR_DATA_placed _ _ _ Hlen Hplaced)
    as (Hfield & Hdata & _ & _).
  destruct (ALIGNUP_least (Z.of_nat (length str) + 1)) as (_ & Hr & _);
    [lia..|].
  rewrite sizeof_literal_eq by done.
  set (arr := ALIGNUP (Z.of_nat (length str) + 1)) in *.
  eexists. split.
  { apply (LOAD_FSTR_runs s' junk a (Z.of_nat (length str)) str);
      [exact Hfield|lia|by rewrite Nat2Z.id]. }
  rewrite Nat2Z.id. fold arr.
  assert (length (junk <$> seq 0 (Z.to_nat arr)) = Z.to_nat arr) as Hname
    by (by rewrite length_fmap, length_seq).
  split.
  - replace (S (length str)) with (length str + 1)%nat by lia.
    rewrite (take_app_add' str _ (length str) 1) by done. done.
  - rewrite length_app, length_cons, length_drop, Hname. lia.
Qed.

Lemma FSTR_ARRAY_is_the_literal_witness :
  Z.of_nat (length hello_data) + 4 < 2 ^ 32
  /\ exists name : list byte,
       FSTR_ARRAY image 0x40205000 (fun _ => Byte.xff) hello_data = Ok name
       /\ take 6 name = hello_data ++ [Byte.x00]
       /\ Z.of_nat (length name) = 8.
Proof.
  assert (Z.of_nat (length hello_data) + 4 < 2 ^ 32) as Hlen by (simpl; lia).
  split; [exact Hlen|].
  destruct (FSTR_ARRAY_is_the_literal image 0x40205000 (fun _ => Byte.xff)
              hello_data Hlen) as (name & Hrun & Htake & Hsize).
  exists name. split; [exact Hrun|]. split; [exact Htake|exact Hsize].
Defined.

(** X3.  A file bound in by [IMPORT_FSTR_DATA] and placed at [a] is a
    FlashString whose length is the size of the file and whose data is the
    file, byte for byte: the structure is the four-byte field and the file
    with nothing added, and reading [length()] bytes from offset 0 returns the
    file. *)
Theorem IMPORT_FSTR_DATA_round_trip (s : Machine) (a : Z)
    (file buffer : list byte) :
  Z.of_nat (length file) < 2 ^ 32 ->
  load_bytes (mem s) a (length (IMPORT_FSTR_DATA file))
    = Some (IMPORT_FSTR_DATA file) ->
  length buffer = length file ->
  length (IMPORT_FSTR_DATA file) = (4 + length file)%nat
  /\ holds s a file
  /\ FlashString.length s a = Ok (Z.of_nat (length file))
  /\ FlashString.read s a 0 buffer (Z.of_nat (length file))
     = Ok (file, Z.of_nat (length file)).
Proof.
  intros Hlen Hplaced Hbuf. unfold IMPORT_FSTR_DATA in *. cbv zeta in *.
  replace (4 + Z.of_nat (length file) - 4) with (Z.of_nat (length file)) in *
    by lia.
  set (len := Z.of_nat (length file)) in *.
  assert (length (le_split 4 len ++ file) = (4 + length file)%nat) as Hsize
    by (by rewrite length_app, length_le_split).
  apply load_bytes_app_inv in Hplaced as [Hfield Hdata].
  rewrite length_le_split in Hfield, Hdata.
  change (Z.of_nat 4) with 4 in Hdata.
  assert (load_uint (mem s) a 4 = Ok len) as Hfield'
    by (apply load_uint_le_split; [lia|exact Hfield]).
  split; [done|]. split; [by split|]. split; [done|].
  destruct (Z.eq_dec len 0) as [E|E].
  - unfold FlashString.read, FlashString.flashLength.
    rewrite Hfield', E. simpl.
    destruct file; [|simpl in *; lia]. by destruct buffer.
  - rewrite (cached_read s a len 0 len buffer file); try done; try lia.
    + replace (Z.min len (len - 0)) with len by lia.
      unfold len. rewrite Nat2Z.id. simpl. rewrite drop_0.
      rewrite firstn_all, drop_ge by lia. by rewrite app_nil_r.
    + unfold len. by rewrite Nat2Z.id.
Qed.

Lemma IMPORT_FSTR_DATA_round_trip_witness :
  Z.of_nat (length numbers_data) < 2 ^ 32
  /\ load_bytes (mem image) numbers (length (IMPORT_FSTR_DATA numbers_data))
     = Some (IMPORT_FSTR_DATA numbers_data)
  /\ FlashString.read image numbers 0 (replicate 20 Byte.xff) 20
     = Ok (numbers_data, 20).
Proof.
  assert (Z.of_nat (length numbers_data) < 2 ^ 32) as Hlen by (simpl; lia).
  assert (load_bytes (mem image) numbers
            (length (IMPORT_FSTR_DATA numbers_data))
          = Some (IMPORT_FSTR_DATA numbers_data)) as Hplaced by evaluate.
  split; [exact Hlen|]. split; [exact Hplaced|].
  destruct (IMPORT_FSTR_DATA_round_trip image numbers numbers_data
              (replicate 20 Byte.xff) Hlen Hplaced eq_refl)
    as (_ & _ & _ & Hread).
  exact Hread.
Defined.

(** ** Operations see a handle through its resolution *)

Lemma valueAt_by_resolution (sizeofT : Z) (cfg1 cfg2 : Platform)
    (s : Machine) (h1 h2 : Z) :
  ObjectBase.getObjectPtr cfg1 s h1 = ObjectBase.getObjectPtr cfg2 s h2 ->
  forall i : Z,
    Object.valueAt sizeofT cfg1 s h1 i = Object.valueAt sizeofT cfg2 s h2 i.
Proof.
  intros H i.
  unfold Object.valueAt, Object.length, Object.data, ObjectBase.length,
    ObjectBase.data.
  by rewrite H.
Qed.

Lemma length_by_resolution (sizeofT : Z) (cfg1 cfg2 : Platform)
    (s : Machine) (h1 h2 : Z) :
  ObjectBase.getObjectPtr cfg1 s h1 = ObjectBase.getObjectPtr cfg2 s h2 ->
  Object.length sizeofT cfg1 s h1 = Object.length sizeofT cfg2 s h2.
Proof. intros H. unfold Object.length, ObjectBase.length. by rewrite H. Qed.

Lemma indexOf_by_resolution (sizeofT : Z) (cfg1 cfg2 : Platform)
    (s : Machine) (h1 h2 : Z) :
  ObjectBase.getObjectPtr cfg1 s h1 = ObjectBase.getObjectPtr cfg2 s h2 ->
  forall (ValueType : Type) (equals : Z -> ValueType -> bool)
    (value : ValueType),
    Object.indexOf sizeofT cfg1 equals s h1 value
    = Object.indexOf sizeofT cfg2 equals s h2 value.
Proof.
  intros H ValueType equals value. unfold Object.indexOf.
  rewrite (length_by_resolution sizeofT _ _ _ _ _ H).
  destruct (Object.length sizeofT cfg2 s h2) as [n|e]; simpl; [|done].
  assert (forall (todo : nat) (i : Z),
            Object.indexOf_loop sizeofT cfg1 equals s h1 value todo i
            = Object.indexOf_loop sizeofT cfg2 equals s h2 value todo i)
    as Hloop.
  { induction todo as [|todo IH]; intros i; [done|].
    simpl. rewrite (valueAt_by_resolution sizeofT _ _ _ _ _ H).
    destruct (Object.valueAt sizeofT cfg2 s h2 i) as [v|e]; simpl; [|done].
    destruct (equals v value); [done|]. apply IH. }
  apply Hloop.
Qed.

Lemma readFlash_by_resolution (sizeofT : Z) (cfg1 cfg2 : Platform)
    (s : Machine) (h1 h2 : Z) :
  ObjectBase.getObjectPtr cfg1 s h1 = ObjectBase.getObjectPtr cfg2 s h2 ->
  (forall a : Z, flashmem_get_address cfg1 a = flashmem_get_address cfg2 a) ->
  forall (index : Z) (buffer : list byte) (count : Z),
    Object.readFlash sizeofT cfg1 s h1 index buffer count
    = Object.readFlash sizeofT cfg2 s h2 index buffer count.
Proof.
  intros H Haddr index buffer count.
  unfold Object.readFlash, ObjectBase.readFlash. rewrite H.
  destruct (ObjectBase.getObjectPtr cfg2 s h2) as [p|e]; simpl; [|done].
  destruct (ObjectBase.getObjectLength s p) as [len|e]; simpl; [|done].
  by rewrite Haddr.
Qed.

(** X5.  Two handles that resolve alike, such as a copy and the handle it
    was made from, are interchangeable: they have the same length, the same
    element at every index, the same search results and the same reads. *)
Theorem same_resolution_same_results (sizeofT : Z) (cfg : Platform)
    (s : Machine) (h1 h2 : Z) :
  ObjectBase.getObjectPtr cfg s h1 = ObjectBase.getObjectPtr cfg s h2 ->
  Object.length sizeofT cfg s h1 = Object.length sizeofT cfg s h2
  /\ (forall i : Z,
        Object.valueAt sizeofT cfg s h1 i = Object.valueAt sizeofT cfg s h2 i)
  /\ (forall (ValueType : Type) (equals : Z -> ValueType -> bool)
        (value : ValueType),
        Object.indexOf sizeofT cfg equals s h1 value
        = Object.indexOf sizeofT cfg equals s h2 value)
  /\ (forall (index : Z) (buffer : list byte) (count : Z),
        Object.readFlash sizeofT cfg s h1 index buffer count
        = Object.readFlash sizeofT cfg s h2 index buffer count).
Proof.
  intros H. split; [by apply length_by_resolution|].
  split; [by apply valueAt_by_resolution|].
  split; [by apply indexOf_by_resolution|].
  by apply readFlash_by_resolution.
Qed.

Lemma same_resolution_same_results_witness :
  ObjectBase.getObjectPtr (esp8266 false) image_duplicate duplicate
    = ObjectBase.getObjectPtr (esp8266 false) image_duplicate numbers
  /\ Object.indexOf 4 (esp8266 false) Z.eqb image_duplicate duplicate 40
     = Object.indexOf 4 (esp8266 false) Z.eqb image_duplicate numbers 40.
Proof.
  assert (ObjectBase.getObjectPtr (esp8266 false) image_duplicate duplicate
          = ObjectBase.getObjectPtr (esp8266 false) image_duplicate numbers)
    as H by evaluate.
  split; [exact H|].
  destruct (same_resolution_same_results 4 _ _ _ _ H) as (_ & _ & Hi & _).
  exact (Hi Z Z.eqb 40).
Defined.

Lemma getObjectPtr_reads_field (cfg : Platform) (s : Machine) (this p : Z) :
  ObjectBase.getObjectPtr cfg s this = Ok p ->
  exists v : Z, ObjectBase.flashLength_ s this = Ok v.
Proof.
  unfold ObjectBase.getObjectPtr, ObjectBase.isCopy.
  destruct (ObjectBase.flashLength_ s this) as [v|e]; [by exists v|done].
Qed.

(** X6.  Compiling the assertions out changes nothing where the debug
    build runs through: whenever a handle resolves on the debug build, it
    resolves to the same handle on the release build, and length, elements,
    search results and reads are the same.  The release build never ends in
    a failed assertion. *)
Theorem release_agrees_with_debug (sizeofT : Z) (cfg : Platform)
    (s : Machine) (this p : Z) :
  ObjectBase.getObjectPtr (with_NDEBUG false cfg) s this = Ok p ->
  ObjectBase.getObjectPtr (with_NDEBUG true cfg) s this = Ok p
  /\ Object.length sizeofT (with_NDEBUG true cfg) s this
     = Object.length sizeofT (with_NDEBUG false cfg) s this
  /\ (forall i : Z,
        Object.valueAt sizeofT (with_NDEBUG true cfg) s this i
        = Object.valueAt sizeofT (with_NDEBUG false cfg) s this i)
  /\ (forall (ValueType : Type) (equals : Z -> ValueType -> bool)
        (value : ValueType),
        Object.indexOf sizeofT (with_NDEBUG true cfg) equals s this value
        = Object.indexOf sizeofT (with_NDEBUG false cfg) equals s this value)
  /\ (forall (index : Z) (buffer : list byte) (count : Z),
        Object.readFlash sizeofT (with_NDEBUG true cfg) s this index buffer
          count
        = Object.readFlash sizeofT (with_NDEBUG false cfg) s this index buffer
            count)
  /\ (forall h : Z,
        ObjectBase.getObjectPtr (with_NDEBUG true cfg) s h
        <> Err AssertFailed).
Proof.
  intros Hp.
  assert (ObjectBase.getObjectPtr (with_NDEBUG true cfg) s this
          = ObjectBase.getObjectPtr (with_NDEBUG false cfg) s this) as Heq.
  { destruct (getObjectPtr_reads_field _ _ _ _ Hp) as [v Hv].
    rewrite (getObjectPtr_eq (with_NDEBUG false cfg) _ _ _ Hv) in Hp |- *.
    rewrite (getObjectPtr_eq (with_NDEBUG true cfg) _ _ _ Hv). simpl in *.
    destruct (2 ^ 31 <=? v); [done|]. destruct (v =? 0); [done|].
    by destruct (ARCH_HOST cfg || isFlashPtr cfg this). }
  split; [by rewrite Heq|].
  split; [by apply length_by_resolution|].
  split; [by apply valueAt_by_resolution|].
  split; [by apply indexOf_by_resolution|].
  split; [by apply readFlash_by_resolution|].
  intros h Hh.
  destruct (ObjectBase.flashLength_ s h) as [v|e] eqn:Hv.
  - rewrite (getObjectPtr_eq _ _ _ _ Hv) in Hh. simpl in Hh.
    destruct (2 ^ 31 <=? v); [done|]. destruct (v =? 0); [done|].
    by destruct (ARCH_HOST cfg || isFlashPtr cfg h).
  - unfold ObjectBase.getObjectPtr, ObjectBase.isCopy in Hh.
    rewrite Hv in Hh. simpl in Hh. simplify_eq.
    unfold ObjectBase.flashLength_, load_uint in Hv.
    by destruct (load_bytes (mem s) h 4).
Qed.

Lemma release_agrees_with_debug_witness :
  ObjectBase.getObjectPtr (with_NDEBUG false (esp8266 false)) image numbers
    = Ok numbers
  /\ ObjectBase.getObjectPtr (with_NDEBUG true (esp8266 false)) image numbers
     = Ok numbers.
Proof.
  assert (ObjectBase.getObjectPtr (with_NDEBUG false (esp8266 false)) image
            numbers = Ok numbers) as Hp by evaluate.
  split; [exact Hp|].
  destruct (release_agrees_with_debug 4 _ _ _ _ Hp) as (Hr & _).
  exact Hr.
Defined.

(** ** Handles of length zero *)

(** X4.  A handle whose length field is 0 resolves to the empty singleton
    on every build, wherever the handle lies: the flash check is not reached,
    so nothing aborts.  With the singleton in place ([empty_{0}]), the
    sequence has length 0, [valueAt] is the zero element at every index,
    [indexOf] finds nothing, [readFlash] reads nothing and leaves the buffer
    alone, and [begin() == end()].  This covers [Object::empty()], the
    singleton itself. *)
Theorem zero_length_handle (sizeofT : Z) (cfg : Platform) (s : Machine)
    (this : Z) (st : strategy) :
  resolve_readValue sizeofT = Ok st ->
  ObjectBase.flashLength_ s this = Ok 0 ->
  ObjectBase.flashLength_ s (empty_ cfg) = Ok 0 ->
  ObjectBase.getObjectPtr cfg s this = Ok (empty_ cfg)
  /\ Object.length sizeofT cfg s this = Ok 0
  /\ (forall i : Z, 0 <= i -> Object.valueAt sizeofT cfg s this i = Ok 0)
  /\ (forall (ValueType : Type) (equals : Z -> ValueType -> bool)
        (value : ValueType),
        Object.indexOf sizeofT cfg equals s this value = Ok (-1))
  /\ (forall (index : Z) (buffer : list byte) (count : Z),
        Object.readFlash sizeofT cfg s this index buffer count
        = Ok (buffer, 0))
  /\ Object.end_ sizeofT cfg s this = Ok (Object.begin this).
Proof.
  intros Hst Hzero Hempty.
  assert (ObjectBase.getObjectPtr cfg s this = Ok (empty_ cfg)) as Hp
    by (by rewrite (getObjectPtr_eq _ _ _ _ Hzero)).
  assert (Object.length sizeofT cfg s this = Ok 0) as Hlen.
  { rewrite (typed_length_eq _ _ _ _ _ _ Hp Hempty).
    by rewrite Zdiv_0_l. }
  split; [done|]. split; [done|]. split; [|split; [|split]].
  - intros i Hi. rewrite (valueAt_eq _ _ _ _ _ _ _ _ Hst Hp Hempty).
    rewrite Zdiv_0_l. destruct (Z.ltb_spec i 0); [lia|done].
  - intros ValueType equals value. unfold Object.indexOf. by rewrite Hlen.
  - intros index buffer count.
    unfold Object.readFlash, ObjectBase.readFlash. rewrite Hp. simpl.
    unfold ObjectBase.getObjectLength. rewrite Hempty. simpl.
    pose proof (Z.mod_pos_bound (index * sizeofT) (2 ^ 32)).
    unfold wrap32 at 1.
    destruct (Z.leb_spec 0 ((index * sizeofT) `mod` 2 ^ 32)); [|lia].
    simpl. by rewrite Zdiv_0_l.
  - unfold Object.end_. by rewrite Hlen.
Qed.

Lemma zero_length_handle_witness :
  resolve_readValue 2 = Ok WordRead
  /\ ObjectBase.flashLength_ image (empty_ (esp8266 false)) = Ok 0
  /\ Object.indexOf 2 (esp8266 false) Z.eqb image (empty_ (esp8266 false)) 7
     = Ok (-1)
  /\ Object.valueAt 2 (esp8266 false) image (empty_ (esp8266 false)) 3
     = Ok 0.
Proof.
  assert (resolve_readValue 2 = Ok WordRead) as Hst by reflexivity.
  assert (ObjectBase.flashLength_ image (empty_ (esp8266 false)) = Ok 0)
    as Hzero by evaluate.
  split; [exact Hst|]. split; [exact Hzero|].
  destruct (zero_length_handle 2 (esp8266 false) image
              (empty_ (esp8266 false)) WordRead Hst Hzero Hzero)
    as (_ & _ & Hv & Hi & _).
  split; [exact (Hi Z Z.eqb 7)|]. apply Hv. lia.
Defined.

(** ** Reading elements from the device *)

Lemma typed_readFlash_at (sizeofT : Z) (cfg : Platform) (s : Machine)
    (this p len index count : Z) (buffer : list byte) :
  ObjectBase.getObjectPtr cfg s this = Ok p ->
  ObjectBase.flashLength_ s p = Ok len ->
  0 <= index * sizeofT < 2 ^ 32 -> 0 <= count * sizeofT < 2 ^ 32 ->
  Object.readFlash sizeofT cfg s this index buffer count =
    if len <=? index * sizeofT then Ok (buffer, 0 / sizeofT)
    else
      r ← flashmem_read s buffer
            (flashmem_get_address cfg (p + 4 + index * sizeofT))
            (std_min (wrap32 (len - index * sizeofT)) (count * sizeofT));
      Ok (r.1, r.2 / sizeofT).
Proof.
  intros Hp Hlen Hi Hc.
  unfold Object.readFlash, ObjectBase.readFlash. rewrite Hp. simpl.
  unfold ObjectBase.getObjectLength. rewrite Hlen. simpl.
  rewrite (wrap32_small (index * sizeofT)), (wrap32_small (count * sizeofT))
    by lia.
  by destruct (len <=? index * sizeofT).
Qed.

Lemma whole_elements (sizeofT len index count : Z) :
  0 < sizeofT -> len mod sizeofT = 0 -> 0 <= index < len / sizeofT ->
  0 <= count ->
  Z.min (count * sizeofT) (len - index * sizeofT)
  = Z.min count (len / sizeofT - index) * sizeofT.
Proof.
  intros Hs Hmod Hi Hc.
  assert (len = sizeofT * (len / sizeofT)) as Hexact.
  { rewrite (Z.div_mod len sizeofT) at 1 by lia. lia. }
  destruct (Z.le_ge_cases count (len / sizeofT - index)).
  - rewrite !Z.min_l by nia. done.
  - rewrite !Z.min_r by nia. nia.
Qed.

(** X7.  Where neither [index * sizeof(ElementType)] nor
    [count * sizeof(ElementType)] wraps and the byte length is a whole number
    of elements, [Object::readFlash] reads nothing at or past [length()], and
    otherwise copies [min(count, length() - index)] whole elements, those
    from [index] on, to the start of the buffer and returns that number. *)
Theorem typed_readFlash_clamps (sizeofT : Z) (cfg : Platform) (s : Machine)
    (this p len index count : Z) (buffer : list byte) :
  0 < sizeofT ->
  ObjectBase.getObjectPtr cfg s this = Ok p ->
  ObjectBase.flashLength_ s p = Ok len ->
  len mod sizeofT = 0 ->
  0 <= index -> 0 <= count ->
  index * sizeofT < 2 ^ 32 -> count * sizeofT < 2 ^ 32 ->
  let n := len / sizeofT in
  let k := Z.min count (n - index) in
  (n <= index ->
     Object.readFlash sizeofT cfg s this index buffer count = Ok (buffer, 0))
  /\ (forall B : list byte,
        index < n ->
        load_bytes (mem s) (p + 4) (Z.to_nat len) = Some B ->
        load_bytes (flash s)
            (flashmem_get_address cfg (p + 4 + index * sizeofT))
            (Z.to_nat (k * sizeofT))
          = load_bytes (mem s) (p + 4 + index * sizeofT)
              (Z.to_nat (k * sizeofT)) ->
        k * sizeofT <= Z.of_nat (length buffer) ->
        Object.readFlash sizeofT cfg s this index buffer count
          = Ok (copied B (index * sizeofT) (k * sizeofT) buffer, k)).
Proof.
  intros Hs Hp Hlen Hmod Hi Hc Hiw Hcw n k.
  pose proof (flashLength_range _ _ _ Hlen) as Hl.
  assert (len = sizeofT * n) as Hexact.
  { unfold n. rewrite (Z.div_mod len sizeofT) at 1 by lia. lia. }
  rewrite (typed_readFlash_at _ _ _ _ _ _ _ _ _ Hp Hlen) by nia.
  split.
  - intros Hpast. destruct (Z.leb_spec len (index * sizeofT)); [|nia].
    by rewrite Zdiv_0_l.
  - intros B Hin HB Hdev Hroom.
    destruct (Z.leb_spec len (index * sizeofT)); [nia|].
    assert (Z.min (count * sizeofT) (len - index * sizeofT) = k * sizeofT)
      as Hk by (apply whole_elements; lia).
    rewrite (device_read cfg s p len (index * sizeofT) (count * sizeofT)
               buffer B); try done; try nia; rewrite Hk; try done.
    simpl. unfold copied. by rewrite Z.div_mul by lia.
Qed.

Lemma typed_readFlash_clamps_witness :
  0 < 4
  /\ ObjectBase.getObjectPtr (esp8266 true) image_duplicate duplicate
       = Ok numbers
  /\ ObjectBase.flashLength_ image_duplicate numbers = Ok 20
  /\ 20 mod 4 = 0
  /\ Object.readFlash 4 (esp8266 true) image_duplicate duplicate 3
       (replicate 8 Byte.xff) 10
     = Ok (le_split 4 40 ++ le_split 4 50, 2).
Proof.
  assert (0 < 4) as Hs by lia.
  assert (ObjectBase.getObjectPtr (esp8266 true) image_duplicate duplicate
          = Ok numbers) as Hp by evaluate.
  assert (ObjectBase.flashLength_ image_duplicate numbers = Ok 20)
    as Hlen by evaluate.
  assert (20 mod 4 = 0) as Hmod by reflexivity.
  split; [exact Hs|]. split; [exact Hp|]. split; [exact Hlen|].
  split; [exact Hmod|].
  destruct (typed_readFlash_clamps 4 (esp8266 true) image_duplicate duplicate
              numbers 20 3 10 (replicate 8 Byte.xff) Hs Hp Hlen Hmod)
    as [_ Hin]; [lia..|].
  apply (Hin numbers_data); [reflexivity|evaluate|evaluate|by vm_compute].
Defined.

Lemma element_of_copied (sizeofT : Z) (B buffer : list byte) (index k j : Z) :
  0 < sizeofT -> 0 <= index -> 0 <= j < k ->
  (index + k) * sizeofT <= Z.of_nat (length B) ->
  element sizeofT (copied B (index * sizeofT) (k * sizeofT) buffer) j
  = element sizeofT B (index + j).
Proof.
  intros Hs Hi Hj Hfit. unfold element, copied. f_equal.
  set (S := Z.to_nat sizeofT).
  set (I := Z.to_nat (index * sizeofT)).
  set (J := Z.to_nat (j * sizeofT)).
  set (K := Z.to_nat (k * sizeofT)).
  replace (Z.to_nat ((index + j) * sizeofT)) with (I + J)%nat
    by (unfold I, J; nia).
  assert (J + S <= K)%nat as HJK by (unfold J, S, K; nia).
  assert (I + K <= length B)%nat as HIK by (unfold I, K; nia).
  rewrite drop_app_le by (rewrite length_take, length_drop; lia).
  rewrite take_app_le
    by (rewrite length_drop, length_take, length_drop; lia).
  rewrite skipn_firstn_comm, take_take, drop_drop.
  f_equal. lia.
Qed.

(** X8.  Bulk read and indexed access agree: under the conditions of X7,
    the [j]-th element of what [readFlash(index, buffer, count)] put into the
    buffer is [valueAt(index + j)], for every [j] below the number of
    elements read. *)
Theorem readFlash_agrees_with_valueAt (sizeofT : Z) (cfg : Platform)
    (s : Machine) (this p len index count : Z) (buffer B : list byte)
    (st : strategy) :
  0 < sizeofT ->
  resolve_readValue sizeofT = Ok st ->
  ObjectBase.getObjectPtr cfg s this = Ok p ->
  ObjectBase.flashLength_ s p = Ok len ->
  len mod sizeofT = 0 ->
  0 <= index < len / sizeofT -> 0 <= count ->
  index * sizeofT < 2 ^ 32 -> count * sizeofT < 2 ^ 32 ->
  load_bytes (mem s) (p + 4) (Z.to_nat len) = Some B ->
  let k := Z.min count (len / sizeofT - index) in
  load_bytes (flash s) (flashmem_get_address cfg (p + 4 + index * sizeofT))
      (Z.to_nat (k * sizeofT))
    = load_bytes (mem s) (p + 4 + index * sizeofT) (Z.to_nat (k * sizeofT)) ->
  k * sizeofT <= Z.of_nat (length buffer) ->
  exists buffer' : list byte,
    Object.readFlash sizeofT cfg s this index buffer count = Ok (buffer', k)
    /\ length buffer' = length buffer
    /\ forall j : Z, 0 <= j < k ->
         Object.valueAt sizeofT cfg s this (index + j)
         = Ok (element sizeofT buffer' j).
Proof.
  intros Hs Hst Hp Hlen Hmod Hi Hc Hiw Hcw HB k Hdev Hroom.
  pose proof (load_bytes_length _ _ _ _ HB) as HlB.
  pose proof (flashLength_range _ _ _ Hlen) as Hl.
  assert (len = sizeofT * (len / sizeofT)) as Hexact.
  { rewrite (Z.div_mod len sizeofT) at 1 by lia. lia. }
  exists (copied B (index * sizeofT) (k * sizeofT) buffer).
  split; [|split].
  - unfold k.
    rewrite (typed_readFlash_at _ _ _ _ _ _ _ _ _ Hp Hlen) by nia.
    destruct (Z.leb_spec len (index * sizeofT)); [nia|].
    assert (Z.min (count * sizeofT) (len - index * sizeofT)
            = Z.min count (len / sizeofT - index) * sizeofT)
      as Hk by (apply whole_elements; lia).
    rewrite (device_read cfg s p len (index * sizeofT) (count * sizeofT)
               buffer B); try done; try nia; rewrite Hk; try done.
    simpl. unfold copied. by rewrite Z.div_mul by lia.
  - unfold copied.
    rewrite length_app, length_take, !length_drop. nia.
  - intros j Hj.
    rewrite element_of_copied by (done || nia).
    eapply valueAt_stored; eauto. lia.
Qed.

Lemma readFlash_agrees_with_valueAt_witness :
  exists buffer' : list byte,
    Object.readFlash 4 (esp8266 true) image numbers 1 (replicate 12 Byte.xff)
      3 = Ok (buffer', 3)
    /\ Object.valueAt 4 (esp8266 true) image numbers (1 + 2)
       = Ok (element 4 buffer' 2).
Proof.
  destruct (readFlash_agrees_with_valueAt 4 (esp8266 true) image numbers
              numbers 20 1 3 (replicate 12 Byte.xff) numbers_data
              Dereference)
    as (buffer' & Hread & _ & Hval);
    [lia|reflexivity|evaluate|evaluate|reflexivity
    |split; [lia|reflexivity]|lia|lia|lia|evaluate|evaluate|by vm_compute|].
  exists buffer'. split; [exact Hread|]. apply Hval. split; by vm_compute.
Defined.

(** X9.  Whatever the index and the count, wrapped products included,
    when [Object::readFlash] returns, it returns at most [count] elements
    and has written inside the first [count * sizeof(ElementType)] bytes of
    the buffer only: the buffer keeps its size and everything from that byte
    on is as it was. *)
Theorem typed_readFlash_stays_in_bounds (sizeofT : Z) (cfg : Platform)
    (s : Machine) (this index count r : Z) (buffer buffer' : list byte) :
  0 < sizeofT -> 0 <= count ->
  Object.readFlash sizeofT cfg s this index buffer count = Ok (buffer', r) ->
  0 <= r <= count
  /\ length buffer' = length buffer
  /\ drop (Z.to_nat (count * sizeofT)) buffer'
     = drop (Z.to_nat (count * sizeofT)) buffer.
Proof.
  intros Hs Hc H.
  unfold Object.readFlash, ObjectBase.readFlash in H.
  destruct (ObjectBase.getObjectPtr cfg s this) as [p|e]; simpl in H; [|done].
  destruct (ObjectBase.getObjectLength s p) as [len|e]; simpl in H; [|done].
  destruct (len <=? wrap32 (index * sizeofT)).
  { simpl in H. rewrite Zdiv_0_l in H. simplify_eq. repeat split; lia. }
  set (n := std_min (wrap32 (len - wrap32 (index * sizeofT)))
              (wrap32 (count * sizeofT))) in *.
  assert (0 <= n <= count * sizeofT) as Hn.
  { unfold n, std_min, wrap32.
    assert (0 <= count * sizeofT) as Hcs by nia.
    pose proof (Z.mod_pos_bound (len - (index * sizeofT) mod 2 ^ 32) (2 ^ 32)
                  ltac:(lia)) as Ha.
    pose proof (Z.mod_pos_bound (count * sizeofT) (2 ^ 32) ltac:(lia)) as Hb.
    pose proof (Z.mod_le (count * sizeofT) (2 ^ 32) Hcs ltac:(lia)) as Hle.
    destruct (Z.ltb_spec ((count * sizeofT) mod 2 ^ 32)
                ((len - (index * sizeofT) mod 2 ^ 32) mod 2 ^ 32)); lia. }
  unfold flashmem_read in H.
  destruct (load_bytes (flash s) _ (Z.to_nat n)) as [bytes|] eqn:Hbytes;
    simpl in H; [|done].
  apply load_bytes_length in Hbytes.
  unfold memcpy in H.
  destruct (Nat.leb_spec (length bytes) (length buffer)); simpl in H; [|done].
  simplify_eq. split; [|split].
  - split; [apply Z.div_pos; lia|].
    apply Z.div_le_upper_bound; nia.
  - rewrite length_app, length_drop. lia.
  - rewrite drop_app_ge by lia. rewrite drop_drop. f_equal. lia.
Qed.

Lemma typed_readFlash_stays_in_bounds_witness :
  0 < 4 /\ 0 <= 1
  /\ Object.readFlash 4 (esp8266 true) image numbers 0x40000000
       (replicate 8 Byte.xff) 1
     = Ok (le_split 4 10 ++ replicate 4 Byte.xff, 1)
  /\ drop (Z.to_nat (1 * 4)) (le_split 4 10 ++ replicate 4 Byte.xff)
     = drop (Z.to_nat (1 * 4)) (replicate 8 Byte.xff).
Proof.
  assert (0 < 4) as Hs by lia.
  assert (0 <= 1) as Hc by lia.
  assert (Object.readFlash 4 (esp8266 true) image numbers 0x40000000
            (replicate 8 Byte.xff) 1
          = Ok (le_split 4 10 ++ replicate 4 Byte.xff, 1)) as H by evaluate.
  split; [exact Hs|]. split; [exact Hc|]. split; [exact H|].
  destruct (typed_readFlash_stays_in_bounds 4 _ _ _ _ _ _ _ _ Hs Hc H)
    as (_ & _ & Hrest).
  exact Hrest.
Defined.

(** ** Reading a FlashString piece by piece *)

Lemma delivered (B buffer : list byte) (offset n : Z) :
  0 <= offset -> 0 <= n -> offset + n <= Z.of_nat (length B) ->
  take (Z.to_nat n) (copied B offset n buffer)
  = take (Z.to_nat n) (drop (Z.to_nat offset) B).
Proof.
  intros Ho Hn Hfit. unfold copied.
  rewrite take_app_le by (rewrite slice_length by lia; lia).
  by rewrite take_take, Nat.min_id.
Qed.

(** X10.  Two reads in a row deliver what one read of both counts
    delivers: reading [c1] bytes at [offset] and then [c2] bytes at the
    offset advanced by what the first read returned gives, put together, the
    bytes and the count of reading [c1 + c2] bytes at [offset]. *)
Theorem read_in_two_parts (s : Machine) (p len offset c1 c2 : Z)
    (B buf1 buf2 buf : list byte) :
  FlashString.flashLength s p = Ok len ->
  load_bytes (mem s) (p + 4) (Z.to_nat len) = Some B ->
  0 <= offset -> 0 <= c1 -> 0 <= c2 ->
  c1 <= Z.of_nat (length buf1) ->
  c2 <= Z.of_nat (length buf2) ->
  c1 + c2 <= Z.of_nat (length buf) ->
  exists (b1 b2 b : list byte) (n1 n2 : Z),
    FlashString.read s p offset buf1 c1 = Ok (b1, n1)
    /\ FlashString.read s p (offset + n1) buf2 c2 = Ok (b2, n2)
    /\ FlashString.read s p offset buf (c1 + c2) = Ok (b, n1 + n2)
    /\ take (Z.to_nat (n1 + n2)) b
       = take (Z.to_nat n1) b1 ++ take (Z.to_nat n2) b2.
Proof.
  intros Hlen HB Ho Hc1 Hc2 Hr1 Hr2 Hr.
  pose proof (flashLength_range _ _ _ Hlen) as Hl.
  pose proof (load_bytes_length _ _ _ _ HB) as HlB.
  assert (forall off buffer count, len <= off ->
            FlashString.read s p off buffer count = Ok (buffer, 0)) as Hpast.
  { intros off buffer count Hoff. unfold FlashString.read.
    rewrite Hlen. simpl. destruct (Z.leb_spec len off); [done|lia]. }
  destruct (Z.le_gt_cases len offset) as [Hout|Hin].
  { exists buf1, buf2, buf, 0, 0.
    rewrite Z.add_0_r, !Hpast by done. done. }
  set (n1 := Z.min c1 (len - offset)).
  pose proof (cached_read s p len offset c1 buf1 B Hlen HB) as Hread1.
  pose proof (cached_read s p len offset (c1 + c2) buf B Hlen HB) as Hread.
  fold n1 in Hread1.
  rewrite Hread1, Hread by lia.
  destruct (Z.le_gt_cases (len - offset) c1) as [Hall|Hpart].
  - (* the first read reaches the end *)
    exists (copied B offset n1 buf1), buf2,
      (copied B offset (Z.min (c1 + c2) (len - offset)) buf), n1, 0.
    rewrite Hpast by lia.
    replace (Z.min (c1 + c2) (len - offset)) with n1 by lia.
    rewrite Z.add_0_r. repeat split; try done.
    rewrite !delivered by lia. simpl. by rewrite app_nil_r.
  - (* the second read goes on where the first one stopped *)
    set (n2 := Z.min c2 (len - (offset + n1))).
    pose proof (cached_read s p len (offset + n1) c2 buf2 B Hlen HB)
      as Hread2.
    fold n2 in Hread2.
    exists (copied B offset n1 buf1), (copied B (offset + n1) n2 buf2),
      (copied B offset (Z.min (c1 + c2) (len - offset)) buf), n1, n2.
    rewrite Hread2 by lia.
    replace (Z.min (c1 + c2) (len - offset)) with (n1 + n2) by lia.
    repeat split; try done.
    rewrite !delivered by lia.
    rewrite Z2Nat.inj_add, <- take_take_drop, drop_drop by lia.
    do 3 f_equal. lia.
Qed.

Lemma read_in_two_parts_witness :
  FlashString.flashLength image hello = Ok 5
  /\ load_bytes (mem image) (hello + 4) (Z.to_nat 5) = Some hello_data
  /\ exists (b1 b2 b : list byte) (n1 n2 : Z),
       FlashString.read image hello 1 (replicate 2 Byte.xff) 2 = Ok (b1, n1)
       /\ FlashString.read image hello (1 + n1) (replicate 8 Byte.xff) 8
          = Ok (b2, n2)
       /\ FlashString.read image hello 1 (replicate 10 Byte.xff) (2 + 8)
          = Ok (b, n1 + n2)
       /\ take (Z.to_nat (n1 + n2)) b
          = take (Z.to_nat n1) b1 ++ take (Z.to_nat n2) b2.
Proof.
  assert (FlashString.flashLength image hello = Ok 5) as Hlen by evaluate.
  assert (load_bytes (mem image) (hello + 4) (Z.to_nat 5) = Some hello_data)
    as HB by evaluate.
  split; [exact Hlen|]. split; [exact HB|].
  apply (read_in_two_parts image hello 5 1 2 8 hello_data
           (replicate 2 Byte.xff) (replicate 8 Byte.xff)
           (replicate 10 Byte.xff) Hlen HB); simpl; lia.
Defined.

(** ** The stream over a FlashString *)

(** X11.  As long as the distance between the length and the read position
    fits an [int], [available()] is the number of bytes left and
    [isFinished()] holds exactly when [available()] is not positive.  A new
    stream starts at position 0: it has [length()] bytes available and is
    finished iff the FlashString is empty. *)
Theorem stream_finished_iff_nothing_available (s : Machine)
    (st : FlashMemoryStream.t) (len : Z) :
  FlashString.length s (FlashMemoryStream.flashString st) = Ok len ->
  - 2 ^ 31 <= len - FlashMemoryStream.readPos st < 2 ^ 31 ->
  FlashMemoryStream.available s st
    = Ok (len - FlashMemoryStream.readPos st)
  /\ FlashMemoryStream.isFinished s st
     = Ok (len - FlashMemoryStream.readPos st <=? 0)
  /\ (FlashMemoryStream.readPos st = 0 ->
        FlashMemoryStream.available s st = Ok len
        /\ FlashMemoryStream.isFinished s st = Ok (len =? 0)).
Proof.
  intros Hlen Hd.
  pose proof (flashLength_range _ _ _ Hlen) as Hl.
  set (pos := FlashMemoryStream.readPos st) in *.
  assert (FlashMemoryStream.available s st = Ok (len - pos)) as Hav.
  { unfold FlashMemoryStream.available. rewrite Hlen. simpl. f_equal.
    fold pos. unfold to_int, wrap32.
    destruct (Z.le_gt_cases 0 (len - pos)).
    - rewrite Z.mod_small by lia.
      destruct (Z.ltb_spec (len - pos) (2 ^ 31)); lia.
    - rewrite <- (Z.mod_add _ 1) by lia. rewrite Z.mod_small by lia.
      destruct (Z.ltb_spec (len - pos + 1 * 2 ^ 32) (2 ^ 31)); lia. }
  assert (FlashMemoryStream.isFinished s st = Ok (len - pos <=? 0)) as Hfin.
  { unfold FlashMemoryStream.isFinished. rewrite Hlen. simpl. f_equal.
    fold pos. destruct (Z.leb_spec len pos), (Z.leb_spec (len - pos) 0); lia. }
  split; [done|]. split; [done|].
  intros H0. rewrite Hav, Hfin, H0, Z.sub_0_r. split; [done|]. f_equal.
  destruct (Z.leb_spec len 0), (Z.eqb_spec len 0); lia.
Qed.

Lemma stream_finished_iff_nothing_available_witness :
  FlashString.length image hello = Ok 5
  /\ FlashMemoryStream.available image (FlashMemoryStream.make hello true)
     = Ok 5
  /\ FlashMemoryStream.isFinished image (FlashMemoryStream.make hello true)
     = Ok false.
Proof.
  assert (FlashString.length image hello = Ok 5) as Hlen by evaluate.
  split; [exact Hlen|].
  destruct (stream_finished_iff_nothing_available image
              (FlashMemoryStream.make hello true) 5 Hlen)
    as (_ & _ & Hnew); [simpl; lia|].
  exact (Hnew eq_refl).
Defined.

(** ** The empty FlashString and the size of any *)

(** X12.  A FlashString whose length field is 0, as [FlashString::empty()]
    is, needs nothing but that field: [length()] is 0, [size()] is 4, every
    read returns 0 and leaves the buffer alone, and [LOAD_FSTR] gives an
    array of four bytes that starts with the NUL, the empty C string. *)
Theorem empty_FlashString (s : Machine) (this : Z) :
  FlashString.flashLength s this = Ok 0 ->
  FlashString.length s this = Ok 0
  /\ FlashString.size s this = Ok 4
  /\ (forall (offset : Z) (buffer : list byte) (count : Z),
        0 <= offset ->
        FlashString.read s this offset buffer count = Ok (buffer, 0))
  /\ (forall junk : nat -> byte,
        FlashString.LOAD_FSTR s junk this
        = Ok [Byte.x00; junk 1%nat; junk 2%nat; junk 3%nat]).
Proof.
  intros H. split; [done|]. split; [|split].
  - unfold FlashString.size. by rewrite H.
  - intros offset buffer count Ho. unfold FlashString.read. rewrite H. simpl.
    destruct (Z.leb_spec 0 offset); [done|lia].
  - intros junk.
    by rewrite (LOAD_FSTR_runs s junk this 0 []).
Qed.

Lemma empty_FlashString_witness :
  FlashString.flashLength image (empty_ (esp8266 true)) = Ok 0
  /\ FlashString.size image (empty_ (esp8266 true)) = Ok 4
  /\ FlashString.LOAD_FSTR image (fun _ => Byte.xff) (empty_ (esp8266 true))
     = Ok [Byte.x00; Byte.xff; Byte.xff; Byte.xff].
Proof.
  assert (FlashString.flashLength image (empty_ (esp8266 true)) = Ok 0)
    as H by evaluate.
  split; [exact H|].
  destruct (empty_FlashString image _ H) as (_ & Hsize & _ & Hload).
  split; [exact Hsize|exact (Hload (fun _ => Byte.xff))].
Defined.

Lemma ALIGNUP_wrapped (n : Z) : ALIGNUP n = 4 * (wrap32 (n + 3) / 4).
Proof.
  unfold ALIGNUP.
  assert (0 <= wrap32 (n + 3) < 2 ^ 32) as Hw
    by (unfold wrap32; apply Z.mod_pos_bound; lia).
  rewrite land_wrap32 by done.
  rewrite <- Z.ldiff_land. change 3 with (Z.ones 2) at 2.
  rewrite Z.ldiff_ones_r by lia.
  rewrite Z.shiftr_div_pow2, Z.shiftl_mul_pow2 by lia.
  change (2 ^ 2) with 4.
  pose proof (Z.mul_div_le (wrap32 (n + 3)) 4).
  pose proof (Z.div_pos (wrap32 (n + 3)) 4).
  rewrite wrap32_small by lia. lia.
Qed.

(** X13.  [size()] is a multiple of 4 for every length, as its note says;
    it exceeds [length()], leaving room for the NUL, for every length up to
    0xFFFFFFFB, and it is 0 exactly for the four lengths above that. *)
Theorem size_is_a_multiple_of_four (s : Machine) (this n : Z) :
  FlashString.length s this = Ok n ->
  exists sz : Z,
    FlashString.size s this = Ok sz
    /\ sz mod 4 = 0
    /\ 0 <= sz < 2 ^ 32
    /\ (n <= 0xFFFFFFFB -> n < sz <= n + 4)
    /\ (sz = 0 <-> 0xFFFFFFFC <= n).
Proof.
  intros Hlen. pose proof (flashLength_range _ _ _ Hlen) as Hn.
  exists (ALIGNUP (wrap32 (n + 1))).
  split. { unfold FlashString.size. unfold FlashString.length in Hlen.
           by rewrite Hlen. }
  rewrite ALIGNUP_wrapped.
  set (w := wrap32 (wrap32 (n + 1) + 3)).
  assert (0 <= w < 2 ^ 32) as Hw
    by (unfold w, wrap32 at 1; apply Z.mod_pos_bound; lia).
  pose proof (Z.div_mod w 4 ltac:(lia)) as Hdm.
  pose proof (Z.mod_pos_bound w 4 ltac:(lia)) as Hm.
  assert (n <= 0xFFFFFFFB -> w = n + 4) as Hsmall.
  { intros Hle. unfold w. rewrite (wrap32_small (n + 1)) by lia.
    rewrite wrap32_small by lia. lia. }
  assert (0xFFFFFFFC <= n -> w < 4) as Hbig.
  { intros Hge. unfold w.
    destruct (Z.eq_dec n 0xFFFFFFFF) as [->|Hne]; [by vm_compute|].
    rewrite (wrap32_small (n + 1)) by lia. unfold wrap32.
    rewrite <- (Z.mod_add _ (-1)) by lia. rewrite Z.mod_small by lia. lia. }
  split. { rewrite Z.mul_comm. apply Z.mod_mul. lia. }
  split; [lia|]. split.
  - intros Hle. specialize (Hsmall Hle). lia.
  - split.
    + intros Hz. destruct (Z.le_gt_cases 0xFFFFFFFC n); [done|].
      specialize (Hsmall ltac:(lia)). lia.
    + intros Hge. specialize (Hbig Hge).
      rewrite Z.div_small by lia. done.
Qed.

Lemma size_is_a_multiple_of_four_witness :
  FlashString.length image_huge huge = Ok 0xFFFFFFFC
  /\ exists sz : Z,
       FlashString.size image_huge huge = Ok sz /\ sz mod 4 = 0 /\ sz = 0.
Proof.
  assert (FlashString.length image_huge huge = Ok 0xFFFFFFFC) as Hlen
    by evaluate.
  split; [exact Hlen|].
  destruct (size_is_a_multiple_of_four image_huge huge _ Hlen)
    as (sz & Hsz & Hmod & _ & _ & Hzero).
  exists sz. split; [exact Hsz|]. split; [exact Hmod|].
  apply Hzero. lia.
Defined.

(** ** What an answer of [indexOf] means *)

(** X14.  An answer of [indexOf] can be relied on, whatever [==] is
    between an element and the value: if it returns -1, no index below
    [length()] has a [valueAt] that compares equal to the value; if it
    returns anything else, that is an index below [length()] whose [valueAt]
    compares equal to the value, and no smaller index has one. *)
Theorem indexOf_is_sound (sizeofT : Z) (cfg : Platform) (s : Machine)
    (this p : Z) (B : list byte) (st : strategy) {ValueType : Type}
    (equals : Z -> ValueType -> bool) (value : ValueType) (r : Z) :
  0 < sizeofT ->
  resolve_readValue sizeofT = Ok st ->
  ObjectBase.getObjectPtr cfg s this = Ok p ->
  holds s p B ->
  Z.of_nat (length B) < 2 ^ 31 ->
  Object.indexOf sizeofT cfg equals s this value = Ok r ->
  let n := Z.of_nat (length B) / sizeofT in
  (r = -1 ->
     forall i : Z, 0 <= i < n ->
       exists v : Z,
         Object.valueAt sizeofT cfg s this i = Ok v
         /\ equals v value = false)
  /\ (r <> -1 ->
        0 <= r < n
        /\ (exists v : Z,
              Object.valueAt sizeofT cfg s this r = Ok v
              /\ equals v value = true)
        /\ forall j : Z, 0 <= j < r ->
             exists w : Z,
               Object.valueAt sizeofT cfg s this j = Ok w
               /\ equals w value = false).
Proof.
  intros Hs Hst Hp Hh Htag Hr n.
  destruct (indexOf_answer sizeofT cfg s this p B st equals value Hs Hst Hp
              Hh Htag)
    as (_ & Hval & [[Hr' Hall]|(k & Hk & Hr' & Hek & Hall)]);
    fold n in Hval, Hall; rewrite Hr' in Hr; injection Hr as <-.
  - split; [|done]. intros _ i Hi. eexists. split; [by apply Hval|].
    by apply Hall.
  - split; [lia|]. intros _. split; [done|]. split.
    + eexists. split; [by apply Hval|done].
    + intros j Hj. eexists. split; [apply Hval; lia|]. by apply Hall.
Qed.

Lemma indexOf_is_sound_witness :
  Object.indexOf 4 (esp8266 true) Z.eqb image numbers 40 = Ok 3
  /\ exists v : Z,
       Object.valueAt 4 (esp8266 true) image numbers 3 = Ok v
       /\ (v =? 40) = true.
Proof.
  assert (Object.indexOf 4 (esp8266 true) Z.eqb image numbers 40 = Ok 3)
    as Hr by evaluate.
  split; [exact Hr|].
  destruct (indexOf_is_sound 4 (esp8266 true) image numbers numbers
              numbers_data Dereference Z.eqb 40 3) as [_ Hfound];
    [lia|reflexivity|evaluate|split; evaluate|simpl; lia|exact Hr|].
  destruct Hfound as (_ & Hv & _); [lia|]. exact Hv.
Defined.

(** X15.  Searching for an element that is there finds it or an earlier
    one that compares equal, provided the element compares equal to itself
    (every integer does; a NaN does not, and is not found): for every index
    [i] below [length()] with [valueAt(i) == valueAt(i)],
    [indexOf(valueAt(i))] returns an index that is at most [i] and whose
    [valueAt] compares equal to [valueAt(i)]. *)
Theorem indexOf_of_valueAt (sizeofT : Z) (cfg : Platform) (s : Machine)
    (this p : Z) (B : list byte) (st : strategy)
    (equals : Z -> Z -> bool) (i : Z) :
  0 < sizeofT ->
  resolve_readValue sizeofT = Ok st ->
  ObjectBase.getObjectPtr cfg s this = Ok p ->
  holds s p B ->
  Z.of_nat (length B) < 2 ^ 31 ->
  0 <= i < Z.of_nat (length B) / sizeofT ->
  exists v : Z,
    Object.valueAt sizeofT cfg s this i = Ok v
    /\ (equals v v = true ->
          exists r w : Z,
            Object.indexOf sizeofT cfg equals s this v = Ok r
            /\ 0 <= r <= i
            /\ Object.valueAt sizeofT cfg s this r = Ok w
            /\ equals w v = true)
    /\ ((forall j : Z, 0 <= j < Z.of_nat (length B) / sizeofT ->
           equals (element sizeofT B j) v = false) ->
          Object.indexOf sizeofT cfg equals s this v = Ok (-1)).
Proof.
  intros Hs Hst Hp Hh Htag Hi.
  exists (element sizeofT B i).
  destruct (indexOf_answer sizeofT cfg s this p B st equals
              (element sizeofT B i) Hs Hst Hp Hh Htag)
    as (_ & Hval & [[Hr Hall]|(k & Hk & Hr & Hek & Hall)]).
  - split; [by apply Hval|]. split; [|done].
    intros Hrefl. rewrite Hall in Hrefl by done. done.
  - split; [by apply Hval|]. split.
    + intros Hrefl. exists k, (element sizeofT B k).
      split; [done|]. split; [|split; [by apply Hval|done]].
      split; [lia|]. destruct (Z.le_gt_cases k i); [done|].
      rewrite Hall in Hrefl by lia. done.
    + intros Hnone. rewrite Hnone in Hek by done. done.
Qed.

Lemma indexOf_of_valueAt_witness :
  exists v : Z,
    Object.valueAt 4 (esp8266 true) image numbers 4 = Ok v
    /\ ((v =? v) = true ->
          exists r w : Z,
            Object.indexOf 4 (esp8266 true) Z.eqb image numbers v = Ok r
            /\ 0 <= r <= 4
            /\ Object.valueAt 4 (esp8266 true) image numbers r = Ok w
            /\ (w =? v) = true).
Proof.
  destruct (indexOf_of_valueAt 4 (esp8266 true) image numbers numbers
              numbers_data Dereference Z.eqb 4)
    as (v & Hv & Hfound & _);
    [lia|reflexivity|evaluate|split; evaluate|simpl; lia
    |split; by vm_compute|].
  exists v. split; [exact Hv|exact Hfound].
Defined.
